(** * Sentence reconciliation of vscoq's language server

    A shallow embedding of [server/src/Sentence.ts].  A [Sentence] holds its
    text, a reference to a (mutable, shared) [Range] object, its absolute
    document offset and an optional handle to the prover state computed for
    it; [applyTextChanges] reconciles it with a batch of document edits.

    The modules [./text-util] and [./parsing/coq-parser] that the class
    imports are interfaces here ([textUtil.Ops], [parser.Ops]).  The
    theorems of the first part hold for every implementation of them; those
    of the second part are about the position arithmetic itself and rest on
    [TextUtilModel], which defines it as the specification describes it. *)

From Stdlib Require Import ZArith String Ascii Bool Lia.
From stdpp Require Import base list.

Local Open Scope Z_scope.

(** ** Data model (vscode-languageserver types) *)

Record Position := mkPosition { line : Z; character : Z }.

(** [end] is a keyword, so the second field of a range is [end_]. *)
Record Range := mkRange { start : Position; end_ : Position }.

Module vscode.

(** Replace [rangeLength] characters at [range] by [text]. *)
Record TextDocumentContentChangeEvent := mkChange {
  range : Range;
  rangeLength : Z;
  text : string
}.

End vscode.

#[global] Instance Position_inhabited : Inhabited Position :=
  populate (mkPosition 0 0).
#[global] Instance Range_inhabited : Inhabited Range :=
  populate (mkRange inhabitant inhabitant).

(** ** JavaScript strings

    A string is a list of characters, each counted once by [length], as
    JavaScript counts UTF-16 code units. *)

(** [s.length] *)
Definition strlen (s : string) : Z := Z.of_nat (String.length s).

Definition clamp (n len : Z) : Z := Z.max 0 (Z.min n len).

(** [s.substring(a, b)]: both indices are clamped to [0 .. s.length] and
    swapped when [a > b]. *)
Definition js_substring (s : string) (a b : Z) : string :=
  let a' := clamp a (strlen s) in
  let b' := clamp b (strlen s) in
  let from := Z.min a' b' in
  let to := Z.max a' b' in
  String.substring (Z.to_nat from) (Z.to_nat (to - from)) s.

(** [s.substring(a)] *)
Definition js_substring_from (s : string) (a : Z) : string :=
  js_substring s a (strlen s).

(** [s.substr(from, len)]: a negative [from] counts from the end. *)
Definition js_substr (s : string) (from len : Z) : string :=
  let from' := if from <? 0 then Z.max (strlen s + from) 0
               else Z.min from (strlen s) in
  let len' := Z.min (Z.max len 0) (strlen s - from') in
  if len' <=? 0 then EmptyString
  else String.substring (Z.to_nat from') (Z.to_nat len') s.

(** ** The imported modules, as interfaces *)

Module textUtil.

(** The operations of [./text-util] that [Sentence.ts] calls.  The type
    [RangeDelta] is declared there too. *)
Class Ops := {
  RangeDelta : Type;
  positionAtRelative : Position -> string -> Z -> Position;
  relativeOffsetAtAbsolutePosition : string -> Position -> Position -> Z;
  offsetAt : string -> Position -> Z;
  rangeContains : Range -> Position -> bool;
  positionIsEqual : Position -> Position -> bool;
  positionIsBeforeOrEqual : Position -> Position -> bool;
  positionIsAfter : Position -> Position -> bool;
  positionIsAfterOrEqual : Position -> Position -> bool;
  rangeDeltaTranslate : Range -> RangeDelta -> Range;
  positionRangeDeltaTranslateEnd : Position -> RangeDelta -> Position
}.

End textUtil.

Module parser.

Inductive SentenceRangeContainment := Before | After | Crosses | Contains.

(** The operations of [./parsing/coq-parser] that [Sentence.ts] calls. *)
Class Ops := {
  sentenceRangeContainment : Range -> Range -> SentenceRangeContainment;
  parseSentenceLength : string -> Z;
  isPassiveDifference : string -> string -> bool
}.

End parser.

(** ** The store *)

(** Range objects live in a store and are named by their index; a sentence
    and the local [newRange] of [applyTextChanges] may name the same object.
    The store also logs every call of [State.markInvalid], by the handle of
    the state it was called on. *)
Definition ref := nat.
Definition State := nat.

Record Heap := mkHeap {
  ranges : list Range;
  markedInvalid : list State
}.

Definition deref (h : Heap) (r : ref) : Range := ranges h !!! r.

(** A new range object. *)
Definition alloc (v : Range) (h : Heap) : ref * Heap :=
  (length (ranges h), mkHeap (ranges h ++ [v]) (markedInvalid h)).

(** [r.end = p] *)
Definition setEnd (r : ref) (p : Position) (h : Heap) : Heap :=
  mkHeap (<[r := mkRange (start (deref h r)) p]> (ranges h)) (markedInvalid h).

(** [st.markInvalid()] *)
Definition markInvalid (st : State) (h : Heap) : Heap :=
  mkHeap (ranges h) (markedInvalid h ++ [st]).

(** How a call ends: with a value, or with an exception. *)
Inductive Completion (A : Type) := Normal (a : A) | Throw.
Arguments Normal {A} a.
Arguments Throw {A}.

(** ** class Sentence *)

Module Sentence.

(** The fields of a sentence.  [symbols] is left out: no modelled method
    reads or writes it.  [state = None] is the [undefined] the field
    starts with. *)
Record t := mk {
  text : string;
  documentRange : ref;
  documentOffset : Z;
  state : option State
}.

Definition getText (this : t) : string := text this.
Definition getRange (this : t) : ref := documentRange this.
Definition getDocumentOffset (this : t) : Z := documentOffset this.
Definition getDocumentEndOffset (this : t) : Z :=
  documentOffset this + strlen (text this).
Definition getState (this : t) : option State := state this.
Definition setState (this : t) (st : State) : t :=
  mk (text this) (documentRange this) (documentOffset this) (Some st).

Section Methods.
Context {TU : textUtil.Ops} {P : parser.Ops}.

Definition positionAt (h : Heap) (this : t) (localOffset : Z) : Position :=
  textUtil.positionAtRelative
    (start (deref h (documentRange this))) (text this) localOffset.

Definition offsetAt (h : Heap) (this : t) (position : Position) : Z :=
  textUtil.relativeOffsetAtAbsolutePosition
    (text this) (start (deref h (documentRange this))) position.

Definition documentOffsetAt (h : Heap) (this : t) (position : Position) : Z :=
  documentOffset this
  + textUtil.relativeOffsetAtAbsolutePosition
      (text this) (start (deref h (documentRange this))) position.

Definition contains (h : Heap) (this : t) (position : Position) : bool :=
  textUtil.rangeContains (deref h (documentRange this)) position.

Definition isBefore (h : Heap) (this : t) (position : Position) : bool :=
  textUtil.positionIsBeforeOrEqual
    (end_ (deref h (documentRange this))) position.

Definition isBeforeOrAt (h : Heap) (this : t) (position : Position) : bool :=
  textUtil.positionIsBeforeOrEqual
    (end_ (deref h (documentRange this))) position
  || textUtil.positionIsBeforeOrEqual
       (start (deref h (documentRange this))) position.

Definition isAfter (h : Heap) (this : t) (position : Position) : bool :=
  textUtil.positionIsAfter (start (deref h (documentRange this))) position.

Definition isAfterOrAt (h : Heap) (this : t) (position : Position) : bool :=
  textUtil.positionIsAfterOrEqual
    (start (deref h (documentRange this))) position
  || textUtil.positionIsAfter (end_ (deref h (documentRange this))) position.

Inductive Side := before | after | containing.

(** [containing] is the string "contains" of the source. *)
Definition comparePosition (h : Heap) (this : t) (position : Position) : Side :=
  if textUtil.positionIsBeforeOrEqual
       (end_ (deref h (documentRange this))) position
  then before
  else if textUtil.positionIsAfter
            (start (deref h (documentRange this))) position
  then after
  else containing.

(** [this.state.markInvalid()]: a call on [undefined] raises a
    [TypeError]. *)
Definition callMarkInvalid (receiver : option State) (h : Heap)
    : Completion unit * Heap :=
  match receiver with
  | Some st => (Normal tt, markInvalid st h)
  | None => (Throw, h)
  end.

(** [if (this.state)]: a state object is truthy, [undefined] is not. *)
Definition truthy (o : option State) : bool :=
  match o with Some _ => true | None => false end.

Definition invalidate (this : t) (h : Heap) : Completion unit * Heap :=
  if truthy (state this) then callMarkInvalid (state this) h
  else (Normal tt, h).

(** [this.invalidate(); return false;] *)
Definition invalidateReturnFalse (this : t) (h : Heap)
    : Completion bool * t * Heap :=
  match invalidate this h with
  | (Normal _, h') => (Normal false, this, h')
  | (Throw, h') => (Throw, this, h')
  end.

(** The locals of [applyTextChanges]. *)
Record Locals := mkLocals {
  newText : string;
  newRange : ref;
  newErrorRange : option ref;
  touchesEnd : bool
}.

(** Where control is after one turn of the loop: at the next turn, or
    out of the method, by [return] or by an exception. *)
Inductive Control :=
| Continue (l : Locals) (this : t) (h : Heap)
| Exit (res : Completion bool * t * Heap).

(** One turn of the [change:] loop, for [changes[idx]] and
    [deltas[idx]].  A delta that is missing is [undefined]; the
    translation functions read its fields, so handing it to them raises
    a [TypeError]. *)
Definition loopBody (deltas : list textUtil.RangeDelta) (idx : nat)
    (change : vscode.TextDocumentContentChangeEvent)
    (l : Locals) (this : t) (h : Heap) : Control :=
  let delta := deltas !! idx in
  match parser.sentenceRangeContainment (deref h (newRange l)) (vscode.range change) with
  | parser.Before =>
      let this1 :=
        mk (text this) (documentRange this)
           (documentOffset this
            + (strlen (vscode.text change) - vscode.rangeLength change))
           (state this) in
      match delta with
      | None => Exit (Throw, this1, h)
      | Some d =>
          let (r1, h1) :=
            alloc (textUtil.rangeDeltaTranslate (deref h (newRange l)) d) h in
          let (e1, h2) :=
            match newErrorRange l with
            | Some e =>
                let (e', h') :=
                  alloc (textUtil.rangeDeltaTranslate (deref h1 e) d) h1 in
                (Some e', h')
            | None => (None, h1)
            end in
          Continue (mkLocals (newText l) r1 e1 (touchesEnd l)) this1 h2
      end
  | parser.After =>
      if textUtil.positionIsEqual
           (end_ (deref h (newRange l))) (start (vscode.range change))
      then Continue (mkLocals (newText l) (newRange l) (newErrorRange l) true)
             this h
      else Continue l this h
  | parser.Crosses => Exit (invalidateReturnFalse this h)
  | parser.Contains =>
      let beginOffset :=
        textUtil.relativeOffsetAtAbsolutePosition (newText l)
          (start (deref h (newRange l))) (start (vscode.range change)) in
      if beginOffset =? -1 then Continue l this h
      else
        let newText1 :=
          (js_substring (newText l) 0 beginOffset
           ++ vscode.text change
           ++ js_substring_from (newText l)
                (beginOffset + vscode.rangeLength change))%string in
        match delta with
        | None => Exit (Throw, this, h)
        | Some d =>
            Continue
              (mkLocals newText1 (newRange l) (newErrorRange l) (touchesEnd l))
              this
              (setEnd (newRange l)
                 (textUtil.positionRangeDeltaTranslateEnd
                    (end_ (deref h (newRange l))) d) h)
        end
  end.

(** [for (let idx = 0; idx < changes.length; ++idx)], from [idx] on. *)
Fixpoint loop (deltas : list textUtil.RangeDelta) (idx : nat)
    (changes : list vscode.TextDocumentContentChangeEvent)
    (l : Locals) (this : t) (h : Heap) : Control :=
  match changes with
  | [] => Continue l this h
  | change :: rest =>
      match loopBody deltas idx change l this h with
      | Continue l' this' h' => loop deltas (S idx) rest l' this' h'
      | exit => exit
      end
  end.

(** The re-parse of a sentence whose end was touched:
    [newEnd === -1 || newEnd !== newText.length]. *)
Definition endChanged (l : Locals) (h : Heap) (updatedDocumentText : string) : bool :=
  let endOffset :=
    textUtil.offsetAt updatedDocumentText (end_ (deref h (newRange l))) in
  let newEnd :=
    parser.parseSentenceLength
      (newText l ++ js_substr updatedDocumentText endOffset 1)%string in
  (newEnd =? -1) || negb (newEnd =? strlen (newText l)).

(** The code after the loop. *)
Definition afterLoop (l : Locals) (this : t) (h : Heap)
    (updatedDocumentText : string) : Completion bool * t * Heap :=
  if touchesEnd l && endChanged l h updatedDocumentText
  then invalidateReturnFalse this h
  else if parser.isPassiveDifference (text this) (newText l)
  then (Normal true,
        mk (newText l) (newRange l) (documentOffset this) (state this), h)
  else invalidateReturnFalse this h.

Definition initLocals (this : t) : Locals :=
  mkLocals (text this) (documentRange this) None false.

Definition applyTextChanges (this : t) (h : Heap)
    (changes : list vscode.TextDocumentContentChangeEvent)
    (deltas : list textUtil.RangeDelta)
    (updatedDocumentText : string) : Completion bool * t * Heap :=
  match loop deltas 0 changes (initLocals this) this h with
  | Continue l this' h' => afterLoop l this' h' updatedDocumentText
  | Exit res => res
  end.

(** *** Observers of a run

    The definitions below are not methods of the class: they read off a
    run of the loop what the statements about it speak of. *)

(** [change.text.length - change.rangeLength], what an edit classified
    [Before] adds to [documentOffset]. *)
Definition netGrowth (change : vscode.TextDocumentContentChangeEvent) : Z :=
  strlen (vscode.text change) - vscode.rangeLength change.

(** The edits that the loop, started at [idx], takes through its [Before]
    case before it ends, in order. *)
Fixpoint editsBefore (deltas : list textUtil.RangeDelta) (idx : nat)
    (changes : list vscode.TextDocumentContentChangeEvent)
    (l : Locals) (this : t) (h : Heap)
    : list vscode.TextDocumentContentChangeEvent :=
  match changes with
  | [] => []
  | change :: rest =>
      match parser.sentenceRangeContainment
              (deref h (newRange l)) (vscode.range change) with
      | parser.Before => [change]
      | _ => []
      end
      ++ match loopBody deltas idx change l this h with
         | Continue l' this' h' => editsBefore deltas (S idx) rest l' this' h'
         | Exit _ => []
         end
  end.

(** The check that the [rangeLength] of an edit taken through the
    [Contains] case is the distance, in the working text, between the
    offsets of its range's start and end. *)
Definition rangeLengthFits (change : vscode.TextDocumentContentChangeEvent)
    (l : Locals) (h : Heap) : bool :=
  match parser.sentenceRangeContainment
          (deref h (newRange l)) (vscode.range change) with
  | parser.Contains =>
      let beginOffset :=
        textUtil.relativeOffsetAtAbsolutePosition (newText l)
          (start (deref h (newRange l))) (start (vscode.range change)) in
      let endOffset :=
        textUtil.relativeOffsetAtAbsolutePosition (newText l)
          (start (deref h (newRange l))) (end_ (vscode.range change)) in
      (beginOffset =? -1)
      || ((0 <=? vscode.rangeLength change)
          && (endOffset =? beginOffset + vscode.rangeLength change))
  | _ => true
  end.

(** [rangeLengthFits] for every edit the loop, started at [idx], meets. *)
Fixpoint rangeLengthsFit (deltas : list textUtil.RangeDelta) (idx : nat)
    (changes : list vscode.TextDocumentContentChangeEvent)
    (l : Locals) (this : t) (h : Heap) : bool :=
  match changes with
  | [] => true
  | change :: rest =>
      rangeLengthFits change l h
      && match loopBody deltas idx change l this h with
         | Continue l' this' h' => rangeLengthsFit deltas (S idx) rest l' this' h'
         | Exit _ => true
         end
  end.

(** The invariant of a valid sentence: the offset of the range's end in the
    sentence is the length of its text. *)
Definition textSpansRange (h : Heap) (this : t) : Prop :=
  offsetAt h this (end_ (deref h (documentRange this))) = strlen (text this).

End Methods.

End Sentence.


(** ** [./text-util], read off the specification

    [text-util.ts] is not among the sources; its operations are defined here
    from the specification's data model (section 3) and operation list
    (section 4.1). *)

Module TextUtilModel.

(** Modelled from the spec: [positionIsBefore] of text-util (missing);
    section 3 orders positions by line, then by character. *)
Definition positionIsBefore (a b : Position) : bool :=
  (line a <? line b) || ((line a =? line b) && (character a <? character b)).

(** Modelled from the spec: [positionIsEqual] of text-util (missing). *)
Definition positionIsEqual (a b : Position) : bool :=
  (line a =? line b) && (character a =? character b).

(** Modelled from the spec: [positionIsBeforeOrEqual] of text-util
    (missing), the order of section 3. *)
Definition positionIsBeforeOrEqual (a b : Position) : bool :=
  (line a <? line b) || ((line a =? line b) && (character a <=? character b)).

(** Modelled from the spec: [positionIsAfter] of text-util (missing). *)
Definition positionIsAfter (a b : Position) : bool :=
  (line a >? line b) || ((line a =? line b) && (character a >? character b)).

(** Modelled from the spec: [positionIsAfterOrEqual] of text-util
    (missing). *)
Definition positionIsAfterOrEqual (a b : Position) : bool :=
  (line a >? line b) || ((line a =? line b) && (character a >=? character b)).

(** Modelled from the spec: [rangeContains] of text-util (missing); a range
    is the half-open span from [start] to [end] (section 3). *)
Definition rangeContains (r : Range) (p : Position) : bool :=
  positionIsBeforeOrEqual (start r) p && positionIsBefore p (end_ r).

(** Modelled from the spec: the line terminator that section 4.1 speaks of
    (missing); here the line feed. *)
Definition isLineTerminator (c : ascii) : bool := (c =? "010")%char.

(** Modelled from the spec: one character's walk in [positionAtRelative]
    (missing): a line terminator advances [line] and resets [character]. *)
Definition advance (p : Position) (c : ascii) : Position :=
  if isLineTerminator c then mkPosition (line p + 1) 0
  else mkPosition (line p) (character p + 1).

(** Modelled from the spec: the walk of [positionAtRelative] (missing) over
    the first [n] characters of [text]. *)
Fixpoint walk (p : Position) (text : string) (n : nat) : Position :=
  match n, text with
  | S n', String c rest => walk (advance p c) rest n'
  | _, _ => p
  end.

(** Modelled from the spec: [positionAtRelative] of text-util (missing): the
    position reached by walking [localOffset] characters of [text] from
    [origin]. *)
Definition positionAtRelative (origin : Position) (text : string)
    (localOffset : Z) : Position :=
  walk origin text (Z.to_nat localOffset).

(** Modelled from the spec: the search of [relativeOffsetAtAbsolutePosition]
    (missing) for the offset whose position is [target]; [acc] characters
    have been walked to reach [cur]. *)
Fixpoint seek (cur : Position) (text : string) (target : Position) (acc : Z) : Z :=
  if positionIsEqual cur target then acc
  else match text with
       | EmptyString => -1
       | String c rest => seek (advance cur c) rest target (acc + 1)
       end.

(** Modelled from the spec: [relativeOffsetAtAbsolutePosition] of text-util
    (missing): the inverse of [positionAtRelative], [-1] when no offset of
    [text] is at [position]. *)
Definition relativeOffsetAtAbsolutePosition (text : string)
    (origin position : Position) : Z :=
  seek origin text position 0.

(** Modelled from the spec: [offsetAt] of text-util (missing): the offset in
    the document of a position, the document starting at line 0,
    character 0. *)
Definition offsetAt (document : string) (position : Position) : Z :=
  relativeOffsetAtAbsolutePosition document (mkPosition 0 0) position.

(** Modelled from the spec: [RangeDelta] of text-util (missing), with the
    four components section 3 lists. *)
Record RangeDelta := mkRangeDelta {
  editStart : Position;
  linesAdded : Z;
  lastLineCharsAdded : Z;
  editRange : Range
}.

(** Modelled from the spec: the shift of a position that lies after the
    edit (missing): every such position moves by [linesAdded] lines, and
    one on the edit's last line by [lastLineCharsAdded] characters too.  No
    bounds are checked (section 4.1). *)
Definition positionRangeDeltaTranslate (p : Position) (d : RangeDelta) : Position :=
  if line p =? line (end_ (editRange d))
  then mkPosition (line p + linesAdded d) (character p + lastLineCharsAdded d)
  else mkPosition (line p + linesAdded d) (character p).

(** Modelled from the spec: [rangeDeltaTranslate] of text-util (missing). *)
Definition rangeDeltaTranslate (r : Range) (d : RangeDelta) : Range :=
  mkRange (positionRangeDeltaTranslate (start r) d)
          (positionRangeDeltaTranslate (end_ r) d).

(** Modelled from the spec: [positionRangeDeltaTranslateEnd] of text-util
    (missing). *)
Definition positionRangeDeltaTranslateEnd (p : Position) (d : RangeDelta) : Position :=
  positionRangeDeltaTranslate p d.

(** Modelled from the spec: the delta of an edit (missing; the document
    owner computes it): the edit's text, walked from the edit's start, ends
    where the edit's end moves to. *)
Definition rangeDeltaOf (change : vscode.TextDocumentContentChangeEvent) : RangeDelta :=
  let newEnd :=
    positionAtRelative (start (vscode.range change)) (vscode.text change)
      (strlen (vscode.text change)) in
  mkRangeDelta (start (vscode.range change))
    (line newEnd - line (end_ (vscode.range change)))
    (character newEnd - character (end_ (vscode.range change)))
    (vscode.range change).

Definition ops : textUtil.Ops := {|
  textUtil.RangeDelta := RangeDelta;
  textUtil.positionAtRelative := positionAtRelative;
  textUtil.relativeOffsetAtAbsolutePosition := relativeOffsetAtAbsolutePosition;
  textUtil.offsetAt := offsetAt;
  textUtil.rangeContains := rangeContains;
  textUtil.positionIsEqual := positionIsEqual;
  textUtil.positionIsBeforeOrEqual := positionIsBeforeOrEqual;
  textUtil.positionIsAfter := positionIsAfter;
  textUtil.positionIsAfterOrEqual := positionIsAfterOrEqual;
  textUtil.rangeDeltaTranslate := rangeDeltaTranslate;
  textUtil.positionRangeDeltaTranslateEnd := positionRangeDeltaTranslateEnd
|}.

End TextUtilModel.

(** ** [./parsing/coq-parser], read off the specification *)

Module ParserModel.

(** Modelled from the spec: [sentenceRangeContainment] of coq-parser
    (missing), the classification of section 4.2: an edit that ends at or
    before the sentence's start is [Before], one that starts at or after
    its end is [After], one nested in the sentence's range is [Contains],
    any other [Crosses]. *)
Definition sentenceRangeContainment (sentRange editRange : Range)
    : parser.SentenceRangeContainment :=
  if TextUtilModel.positionIsBeforeOrEqual (end_ editRange) (start sentRange)
  then parser.Before
  else if TextUtilModel.positionIsBeforeOrEqual (end_ sentRange) (start editRange)
  then parser.After
  else if TextUtilModel.positionIsBeforeOrEqual (start sentRange) (start editRange)
          && TextUtilModel.positionIsBeforeOrEqual (end_ editRange) (end_ sentRange)
  then parser.Contains
  else parser.Crosses.

(** Modelled from the spec: the blanks of the lexer (missing): space, tab,
    line feed and carriage return. *)
Definition isBlank (c : ascii) : bool :=
  ((c =? " ") || (c =? "009") || (c =? "010") || (c =? "013"))%char.

(** Modelled from the spec: [parseSentenceLength] of coq-parser (missing).
    Section 4.2 fixes its interface only (the length of the leading
    sentence, or -1); this one ends a sentence at the first period that a
    blank or the end of the text follows.  [n] characters precede [s]. *)
Fixpoint sentenceEnd (s : string) (n : Z) : Z :=
  match s with
  | EmptyString => -1
  | String c rest =>
      if (c =? ".")%char
      then match rest with
           | EmptyString => n + 1
           | String c' _ => if isBlank c' then n + 1 else sentenceEnd rest (n + 1)
           end
      else sentenceEnd rest (n + 1)
  end.

Definition parseSentenceLength (s : string) : Z := sentenceEnd s 0.

(** Modelled from the spec: the text that [isPassiveDifference] compares
    (missing): the text without the blanks at its end. *)
Fixpoint dropTrailingBlanks (s : string) : string :=
  match s with
  | EmptyString => EmptyString
  | String c rest =>
      match dropTrailingBlanks rest with
      | EmptyString => if isBlank c then EmptyString else String c EmptyString
      | rest' => String c rest'
      end
  end.

(** Modelled from the spec: [isPassiveDifference] of coq-parser (missing).
    Section 4.2 leaves its rule to the lexer; this one accepts two texts
    that agree once the blanks at their ends are dropped. *)
Definition isPassiveDifference (oldText newText : string) : bool :=
  String.eqb (dropTrailingBlanks oldText) (dropTrailingBlanks newText).

(** The classification of the specification, with the two oracles given. *)
Definition opsWith (parseSentenceLength : string -> Z)
    (isPassiveDifference : string -> string -> bool) : parser.Ops := {|
  parser.sentenceRangeContainment := sentenceRangeContainment;
  parser.parseSentenceLength := parseSentenceLength;
  parser.isPassiveDifference := isPassiveDifference
|}.

Definition ops : parser.Ops := opsWith parseSentenceLength isPassiveDifference.

End ParserModel.

(** ** A sentence and some batches

    The sentence [foo.] at characters 5 to 9 of line 0, with a state
    attached, and the batches of the specification's section 8. *)

Module Fixture.

Definition sentence : Sentence.t := Sentence.mk "foo." 0%nat 5 (Some 7%nat).

Definition store : Heap :=
  mkHeap [mkRange (mkPosition 0 5) (mkPosition 0 9)] [].

(** Insert [abcd] at the start of the document. *)
Definition insertBefore : vscode.TextDocumentContentChangeEvent :=
  vscode.mkChange (mkRange (mkPosition 0 0) (mkPosition 0 0)) 0 "abcd".

(** Delete from inside the (shifted) sentence to line 5. *)
Definition deleteAcross : vscode.TextDocumentContentChangeEvent :=
  vscode.mkChange (mkRange (mkPosition 0 10) (mkPosition 5 0)) 100 "".

(** Insert [x] right at the sentence's end, and far after it. *)
Definition insertAtEnd : vscode.TextDocumentContentChangeEvent :=
  vscode.mkChange (mkRange (mkPosition 0 9) (mkPosition 0 9)) 0 "x".

Definition insertAfter : vscode.TextDocumentContentChangeEvent :=
  vscode.mkChange (mkRange (mkPosition 0 20) (mkPosition 0 20)) 0 "x".

(** Replace [foo] by [barx]. *)
Definition replaceInside : vscode.TextDocumentContentChangeEvent :=
  vscode.mkChange (mkRange (mkPosition 0 5) (mkPosition 0 8)) 3 "barx".

Definition deltasOf (changes : list vscode.TextDocumentContentChangeEvent)
    : list (@textUtil.RangeDelta TextUtilModel.ops) :=
  map TextUtilModel.rangeDeltaOf changes.

(** The sentence, the locals and the store after [insertBefore]. *)
Definition shifted : Sentence.t := Sentence.mk "foo." 0%nat 9 (Some 7%nat).

Definition shiftedLocals : Sentence.Locals :=
  Sentence.mkLocals "foo." 1%nat None false.

Definition shiftedStore : Heap :=
  mkHeap [mkRange (mkPosition 0 5) (mkPosition 0 9);
          mkRange (mkPosition 0 9) (mkPosition 0 13)] [].

(** The sentence [foo.] with two blanks after it, and the replacement of
    the blanks, once [insertBefore] has moved them to characters 13 to 15,
    by a line feed and a blank. *)
Definition padded : Sentence.t := Sentence.mk "foo.  " 0%nat 5 (Some 7%nat).

Definition paddedStore : Heap :=
  mkHeap [mkRange (mkPosition 0 5) (mkPosition 0 11)] [].

Definition replaceBlanks : vscode.TextDocumentContentChangeEvent :=
  vscode.mkChange (mkRange (mkPosition 0 13) (mkPosition 0 15)) 2
    (String "010" " ").

End Fixture.

(** ** Vocabulary of the statements *)

(** The fields of a sentence that [applyTextChanges] writes at its commit
    only, and the state handle, which it never writes. *)
Definition sameSentence (this this' : Sentence.t) : Prop :=
  Sentence.text this' = Sentence.text this
  /\ Sentence.documentRange this' = Sentence.documentRange this
  /\ Sentence.state this' = Sentence.state this.

(** Every range object of [h] is still in [h'], with the start it had. *)
Definition startsKept (h h' : Heap) : Prop :=
  (length (ranges h) <= length (ranges h'))%nat
  /\ forall r : ref, (r < length (ranges h))%nat ->
       start (deref h' r) = start (deref h r).

(** The log of [markInvalid] calls once the state of [this], if it has one,
    has been marked. *)
Definition logWithMark (this : Sentence.t) (h : Heap) : list State :=
  markedInvalid h
  ++ match Sentence.state this with Some st => [st] | None => [] end.

Definition totalGrowth (changes : list vscode.TextDocumentContentChangeEvent) : Z :=
  foldr (fun change acc => Sentence.netGrowth change + acc) 0 changes.

(** What one exit of the method leaves in the log: a [return true] and an
    exception nothing, a [return false] one mark. *)
Definition exitLog (missingDelta : Prop) (this : Sentence.t) (h : Heap)
    (res : Completion bool * Sentence.t * Heap) : Prop :=
  match res with
  | (Normal true, _, _) => False
  | (Normal false, _, h') => markedInvalid h' = logWithMark this h
  | (Throw, _, h') => markedInvalid h' = markedInvalid h /\ missingDelta
  end.

(** [p], after the origin it was reached from has moved by [dl] lines and
    [dc] characters: by the lines, and by the characters while it is on the
    origin's line. *)
Definition shift (origin p : Position) (dl dc : Z) : Position :=
  if line p =? line origin then mkPosition (line p + dl) (character p + dc)
  else mkPosition (line p + dl) (character p).

(** The working text, walked from the working range's start, ends at the
    working range's end; the working range is an object of the store. *)
Definition spans (l : Sentence.Locals) (h : Heap) : Prop :=
  (Sentence.newRange l < length (ranges h))%nat
  /\ TextUtilModel.walk (start (deref h (Sentence.newRange l)))
       (Sentence.newText l) (String.length (Sentence.newText l))
     = end_ (deref h (Sentence.newRange l)).

(** The range objects of [h0] other than [r0] are in [h'] as they were, and
    the working range is [r0] or an object made since [h0]. *)
Definition othersKept (h0 : Heap) (r0 : ref) (l : Sentence.Locals) (h' : Heap) : Prop :=
  (length (ranges h0) <= length (ranges h'))%nat
  /\ (forall r : ref, (r < length (ranges h0))%nat -> r <> r0 ->
        deref h' r = deref h0 r)
  /\ (Sentence.newRange l = r0 \/ (length (ranges h0) <= Sentence.newRange l)%nat).

(** Every range object of [h0] is in [h'] as it was, and the working range
    is an object made since [h0]. *)
Definition storeKept (h0 : Heap) (l : Sentence.Locals) (h' : Heap) : Prop :=
  (length (ranges h0) <= length (ranges h'))%nat
  /\ (forall r : ref, (r < length (ranges h0))%nat -> deref h' r = deref h0 r)
  /\ (length (ranges h0) <= Sentence.newRange l)%nat.

(** Two more edits: [foo] replaced by [barx] once [insertBefore] has moved
    the sentence to characters 9 to 13, and the two blanks after [foo.]
    replaced by one. *)
Module MoreFixture.

Definition replaceShifted : vscode.TextDocumentContentChangeEvent :=
  vscode.mkChange (mkRange (mkPosition 0 9) (mkPosition 0 12)) 3 "barx".

Definition shrinkBlanks : vscode.TextDocumentContentChangeEvent :=
  vscode.mkChange (mkRange (mkPosition 0 9) (mkPosition 0 11)) 2 " ".

End MoreFixture.

(** * Properties of [applyTextChanges], for every text-util and parser *)

Section Reconciliation.
Context {TU : textUtil.Ops} {P : parser.Ops}.

Implicit Types (this : Sentence.t) (h : Heap) (l : Sentence.Locals).
Implicit Types (change : vscode.TextDocumentContentChangeEvent).
Implicit Types (changes : list vscode.TextDocumentContentChangeEvent).
Implicit Types (deltas : list textUtil.RangeDelta).

Lemma invalidate_normal this h :
  Sentence.invalidate this h
  = (Normal tt,
     match Sentence.state this with Some st => markInvalid st h | None => h end).
Proof.
  unfold Sentence.invalidate. destruct (Sentence.state this); reflexivity.
Qed.

Lemma invalidateReturnFalse_eq this h :
  Sentence.invalidateReturnFalse this h
  = (Normal false, this,
     match Sentence.state this with Some st => markInvalid st h | None => h end).
Proof.
  unfold Sentence.invalidateReturnFalse. rewrite invalidate_normal. reflexivity.
Qed.

Lemma sameSentence_refl this : sameSentence this this.
Proof. repeat split. Qed.

Lemma sameSentence_trans this1 this2 this3 :
  sameSentence this1 this2 -> sameSentence this2 this3 -> sameSentence this1 this3.
Proof. unfold sameSentence. intuition congruence. Qed.

Lemma startsKept_refl h : startsKept h h.
Proof. split; [lia | reflexivity]. Qed.

Lemma startsKept_trans h1 h2 h3 :
  startsKept h1 h2 -> startsKept h2 h3 -> startsKept h1 h3.
Proof.
  intros [Hlen12 H12] [Hlen23 H23]. split; [lia|].
  intros r Hr. rewrite H23 by lia. apply H12, Hr.
Qed.

Lemma startsKept_alloc v h : startsKept h (alloc v h).2.
Proof.
  split; simpl.
  - rewrite length_app. lia.
  - intros r Hr. unfold deref. simpl. rewrite lookup_total_app_l by exact Hr.
    reflexivity.
Qed.

(** Writing the end of a range object leaves every start as it was. *)
Lemma setEnd_start r p h r' : start (deref (setEnd r p h) r') = start (deref h r').
Proof.
  unfold setEnd, deref. simpl.
  rewrite list_lookup_total_insert. case_decide as Hd; [|reflexivity].
  destruct Hd as [-> _]. reflexivity.
Qed.

Lemma startsKept_setEnd r p h : startsKept h (setEnd r p h).
Proof.
  split.
  - unfold setEnd. simpl. rewrite length_insert. lia.
  - intros r' _. apply setEnd_start.
Qed.

Lemma startsKept_markInvalid st h : startsKept h (markInvalid st h).
Proof. split; [simpl; lia | reflexivity]. Qed.

Lemma totalGrowth_app changes1 changes2 :
  totalGrowth (changes1 ++ changes2) = totalGrowth changes1 + totalGrowth changes2.
Proof.
  induction changes1 as [|c cs IH]; simpl; [reflexivity|].
  unfold totalGrowth in *. simpl. rewrite IH. lia.
Qed.

(** The loop over a batch split in two runs its first part, then the second
    from where the first stopped. *)
Lemma loop_app deltas changes1 changes2 : forall idx l this h,
  Sentence.loop deltas idx (changes1 ++ changes2) l this h
  = match Sentence.loop deltas idx changes1 l this h with
    | Sentence.Continue l' this' h' =>
        Sentence.loop deltas (idx + length changes1) changes2 l' this' h'
    | exit => exit
    end.
Proof.
  induction changes1 as [|c cs IH]; intros idx l this h; simpl.
  - rewrite Nat.add_0_r. reflexivity.
  - destruct (Sentence.loopBody deltas idx c l this h) as [l' this' h'|res];
      [|reflexivity].
    rewrite IH. replace (S idx + length cs)%nat with (idx + S (length cs))%nat by lia.
    reflexivity.
Qed.

(** One turn of the loop. *)
Lemma loopBody_spec deltas idx change l this h :
  let moved :=
    match parser.sentenceRangeContainment
            (deref h (Sentence.newRange l)) (vscode.range change) with
    | parser.Before => [change]
    | _ => []
    end in
  match Sentence.loopBody deltas idx change l this h with
  | Sentence.Continue l' this' h' =>
      sameSentence this this' /\ startsKept h h'
      /\ markedInvalid h' = markedInvalid h
      /\ Sentence.documentOffset this'
         = Sentence.documentOffset this + totalGrowth moved
  | Sentence.Exit res =>
      sameSentence this res.1.2 /\ startsKept h res.2
      /\ exitLog (deltas !! idx = None) this h res
      /\ Sentence.documentOffset res.1.2
         = Sentence.documentOffset this + totalGrowth moved
  end.
Proof.
  unfold Sentence.loopBody.
  destruct (parser.sentenceRangeContainment _ _); cbv zeta.
  - (* Before *)
    destruct (deltas !! idx) as [d|] eqn:Hd.
    + destruct (Sentence.newErrorRange l) as [e|]; simpl;
        (split; [repeat split|]); (split; [|split; [reflexivity|unfold Sentence.netGrowth; lia]]).
      * apply (startsKept_trans _
                 (alloc (textUtil.rangeDeltaTranslate
                           (deref h (Sentence.newRange l)) d) h).2);
          [apply startsKept_alloc|].
        apply (startsKept_alloc _ (alloc _ h).2).
      * apply startsKept_alloc.
    + simpl. split; [repeat split|]. split; [apply startsKept_refl|].
      split; [split; reflexivity|]. unfold Sentence.netGrowth. lia.
  - (* After *)
    destruct (textUtil.positionIsEqual _ _); simpl;
      (split; [apply sameSentence_refl|]); (split; [apply startsKept_refl|]);
      (split; [reflexivity|lia]).
  - (* Crosses *)
    rewrite invalidateReturnFalse_eq. simpl.
    split; [apply sameSentence_refl|]. split.
    + destruct (Sentence.state this); [apply startsKept_markInvalid|apply startsKept_refl].
    + split; [|lia]. unfold logWithMark.
      destruct (Sentence.state this); simpl; [reflexivity|].
      rewrite app_nil_r. reflexivity.
  - (* Contains *)
    destruct (_ =? -1).
    + simpl. split; [apply sameSentence_refl|]. split; [apply startsKept_refl|].
      split; [reflexivity|lia].
    + destruct (deltas !! idx) as [d|] eqn:Hd; simpl.
      * split; [apply sameSentence_refl|]. split; [apply startsKept_setEnd|].
        split; [reflexivity|lia].
      * split; [apply sameSentence_refl|]. split; [apply startsKept_refl|].
        split; [split; reflexivity|lia].
Qed.

(** The whole loop, from [idx] on. *)
Lemma loop_spec deltas changes : forall idx l this h,
  let moved := Sentence.editsBefore deltas idx changes l this h in
  match Sentence.loop deltas idx changes l this h with
  | Sentence.Continue l' this' h' =>
      sameSentence this this' /\ startsKept h h'
      /\ markedInvalid h' = markedInvalid h
      /\ Sentence.documentOffset this'
         = Sentence.documentOffset this + totalGrowth moved
  | Sentence.Exit res =>
      sameSentence this res.1.2 /\ startsKept h res.2
      /\ exitLog (length deltas < idx + length changes)%nat this h res
      /\ Sentence.documentOffset res.1.2
         = Sentence.documentOffset this + totalGrowth moved
  end.
Proof.
  induction changes as [|c cs IH]; intros idx l this h; simpl.
  - split; [apply sameSentence_refl|]. split; [apply startsKept_refl|].
    split; [reflexivity|]. unfold totalGrowth. simpl. lia.
  - pose proof (loopBody_spec deltas idx c l this h) as Hbody. cbv zeta in Hbody.
    rewrite totalGrowth_app.
    destruct (Sentence.loopBody deltas idx c l this h) as [l1 this1 h1|res].
    + destruct Hbody as (Hsame & Hkept & Hlog & Hoff).
      specialize (IH (S idx) l1 this1 h1). cbv zeta in IH.
      destruct (Sentence.loop deltas (S idx) cs l1 this1 h1) as [l2 this2 h2|res].
      * destruct IH as (Hsame' & Hkept' & Hlog' & Hoff').
        split; [eapply sameSentence_trans; eassumption|].
        split; [eapply startsKept_trans; eassumption|].
        split; [congruence|lia].
      * destruct IH as (Hsame' & Hkept' & Hlog' & Hoff').
        split; [eapply sameSentence_trans; eassumption|].
        split; [eapply startsKept_trans; eassumption|].
        split; [|lia].
        destruct res as [[[[]|] this2] h2]; simpl in *; [exact Hlog'| |].
        -- unfold logWithMark in *. destruct Hsame as (_ & _ & Hst).
           rewrite Hlog', Hlog, Hst. reflexivity.
        -- destruct Hlog' as [-> Hmiss]. split; [exact Hlog|lia].
    + destruct Hbody as (Hsame & Hkept & Hlog & Hoff).
      split; [exact Hsame|]. split; [exact Hkept|].
      split; [|unfold totalGrowth at 2; simpl; lia].
      destruct res as [[[[]|] this2] h2]; simpl in *; [exact Hlog|exact Hlog|].
      destruct Hlog as [-> Hmiss]. split; [reflexivity|].
      apply lookup_ge_None in Hmiss. lia.
Qed.

(** The code after the loop returns [true] with the working text and range
    committed, or invalidates and returns [false]. *)
Lemma afterLoop_cases l this h doc :
  Sentence.afterLoop l this h doc
  = (Normal true,
     Sentence.mk (Sentence.newText l) (Sentence.newRange l)
       (Sentence.documentOffset this) (Sentence.state this), h)
  \/ Sentence.afterLoop l this h doc
     = (Normal false, this,
        match Sentence.state this with Some st => markInvalid st h | None => h end).
Proof.
  unfold Sentence.afterLoop. rewrite invalidateReturnFalse_eq.
  destruct (_ && _); [right; reflexivity|].
  destruct (parser.isPassiveDifference _ _); [left|right]; reflexivity.
Qed.

Lemma markedInvalid_mark this h :
  markedInvalid
    (match Sentence.state this with Some st => markInvalid st h | None => h end)
  = logWithMark this h.
Proof.
  unfold logWithMark. destruct (Sentence.state this); simpl; [reflexivity|].
  rewrite app_nil_r. reflexivity.
Qed.

(** Once set, [touchesEnd] stays set. *)
Lemma loopBody_touchesEnd deltas idx change l this h l' this' h' :
  Sentence.loopBody deltas idx change l this h = Sentence.Continue l' this' h' ->
  Sentence.touchesEnd l = true -> Sentence.touchesEnd l' = true.
Proof.
  unfold Sentence.loopBody. intros Hbody Hl.
  repeat match type of Hbody with
         | context [match ?x with _ => _ end] => destruct x
         | context [if ?b then _ else _] => destruct b
         end;
    inversion Hbody; subst; simpl; try assumption; reflexivity.
Qed.

Lemma loop_touchesEnd deltas changes : forall idx l this h l' this' h',
  Sentence.loop deltas idx changes l this h = Sentence.Continue l' this' h' ->
  Sentence.touchesEnd l = true -> Sentence.touchesEnd l' = true.
Proof.
  induction changes as [|c cs IH]; simpl; intros idx l this h l' this' h' Hloop Hl.
  - inversion Hloop; subst. exact Hl.
  - destruct (Sentence.loopBody deltas idx c l this h) as [l1 this1 h1|res] eqn:Hb;
      [|discriminate].
    eapply IH; [exact Hloop|]. eapply loopBody_touchesEnd; eassumption.
Qed.

(** C2: [applyTextChanges] returns [false] exactly when it invalidates the
    sentence.  On a [false] return the log of [markInvalid] calls has grown
    by one call on the attached state, and by none when no state is
    attached; on a [true] return it has not grown.  The method raises only
    when a delta is missing, marking nothing, so no invalidation raises,
    with or without a state.  The state handle itself is never replaced. *)
Theorem applyTextChanges_false_iff_invalidated this h changes deltas doc :
  let res := Sentence.applyTextChanges this h changes deltas doc in
  Sentence.state res.1.2 = Sentence.state this
  /\ match res.1.1 with
     | Normal false =>
         markedInvalid res.2
         = markedInvalid h
           ++ match Sentence.state this with Some st => [st] | None => [] end
     | Normal true => markedInvalid res.2 = markedInvalid h
     | Throw =>
         markedInvalid res.2 = markedInvalid h
         /\ (length deltas < length changes)%nat
     end.
Proof.
  unfold Sentence.applyTextChanges. cbv zeta.
  pose proof (loop_spec deltas changes 0 (Sentence.initLocals this) this h) as Hloop.
  cbv zeta in Hloop.
  destruct (Sentence.loop deltas 0 changes (Sentence.initLocals this) this h)
    as [l1 this1 h1|res].
  - destruct Hloop as ((_ & _ & Hst) & _ & Hlog & _).
    destruct (afterLoop_cases l1 this1 h1 doc) as [-> | ->]; simpl.
    + split; [exact Hst|exact Hlog].
    + split; [exact Hst|]. rewrite markedInvalid_mark. unfold logWithMark.
      rewrite Hlog, Hst. reflexivity.
  - destruct Hloop as ((_ & _ & Hst) & _ & Hlog & _). split; [exact Hst|].
    destruct res as [[[[]|] this1] h1]; simpl in *; [contradiction|exact Hlog|].
    destruct Hlog as [-> Hmiss]. split; [reflexivity|lia].
Qed.

(** C1, as amended: when [applyTextChanges] returns [false], the sentence's
    text is the text it had, [documentRange] is the same range object and
    that object's start is the start it had, and [markInvalid] has been
    called once on the attached state, if there is one.  [documentOffset]
    is not restored: it has grown by [text.length - rangeLength] of every
    edit that the loop took through its [Before] case. *)
Theorem applyTextChanges_false_keeps_text_and_start this h changes deltas doc :
  (Sentence.documentRange this < length (ranges h))%nat ->
  let res := Sentence.applyTextChanges this h changes deltas doc in
  res.1.1 = Normal false ->
  Sentence.text res.1.2 = Sentence.text this
  /\ Sentence.documentRange res.1.2 = Sentence.documentRange this
  /\ start (deref res.2 (Sentence.documentRange this))
     = start (deref h (Sentence.documentRange this))
  /\ Sentence.documentOffset res.1.2
     = Sentence.documentOffset this
       + totalGrowth
           (Sentence.editsBefore deltas 0 changes (Sentence.initLocals this) this h)
  /\ markedInvalid res.2 = logWithMark this h.
Proof.
  intros Hwf. unfold Sentence.applyTextChanges. cbv zeta.
  pose proof (loop_spec deltas changes 0 (Sentence.initLocals this) this h) as Hloop.
  cbv zeta in Hloop.
  destruct (Sentence.loop deltas 0 changes (Sentence.initLocals this) this h)
    as [l1 this1 h1|res].
  - destruct Hloop as ((Htext & Href & Hst) & [_ Hkept] & Hlog & Hoff).
    destruct (afterLoop_cases l1 this1 h1 doc) as [-> | ->]; simpl;
      [discriminate|]. intros _.
    repeat split; try assumption.
    + destruct (Sentence.state this1); [|apply Hkept, Hwf].
      rewrite <- (Hkept _ Hwf). reflexivity.
    + rewrite markedInvalid_mark. unfold logWithMark. rewrite Hlog, Hst. reflexivity.
  - destruct Hloop as ((Htext & Href & Hst) & [_ Hkept] & Hlog & Hoff).
    destruct res as [[[[]|] this1] h1]; simpl in *; try discriminate.
    intros _. repeat split; try assumption. apply Hkept, Hwf.
Qed.

(** C3: when the loop has run over the edits [pre] and the next edit is
    classified [Crosses] against the working range, [applyTextChanges]
    invalidates and returns [false] there: the result is the sentence and
    the store as [pre] left them, with the state marked, whatever edits
    [post] follow. *)
Theorem applyTextChanges_crosses_stops this h pre change post deltas doc l1 this1 h1 :
  Sentence.loop deltas 0 pre (Sentence.initLocals this) this h
  = Sentence.Continue l1 this1 h1 ->
  parser.sentenceRangeContainment
    (deref h1 (Sentence.newRange l1)) (vscode.range change) = parser.Crosses ->
  Sentence.applyTextChanges this h (pre ++ change :: post) deltas doc
  = (Normal false, this1,
     match Sentence.state this1 with Some st => markInvalid st h1 | None => h1 end).
Proof.
  intros Hpre Hcross. unfold Sentence.applyTextChanges.
  rewrite loop_app, Hpre. simpl. unfold Sentence.loopBody.
  rewrite Hcross. apply invalidateReturnFalse_eq.
Qed.

(** C4: when an edit of the batch is classified [After] and starts at the
    working range's end, and the loop runs to its end, [touchesEnd] is set
    and the end is checked again: the character of the updated document at
    the offset of the working range's end is appended to the working text
    and given to [parseSentenceLength]; a result that is -1 or is not the
    working text's length makes [applyTextChanges] invalidate and return
    [false]. *)
Theorem applyTextChanges_touchesEnd_revalidates
    this h pre change post deltas doc l1 this1 h1 l2 this2 h2 :
  Sentence.loop deltas 0 pre (Sentence.initLocals this) this h
  = Sentence.Continue l1 this1 h1 ->
  parser.sentenceRangeContainment
    (deref h1 (Sentence.newRange l1)) (vscode.range change) = parser.After ->
  textUtil.positionIsEqual
    (end_ (deref h1 (Sentence.newRange l1))) (start (vscode.range change)) = true ->
  Sentence.loop deltas 0 (pre ++ change :: post) (Sentence.initLocals this) this h
  = Sentence.Continue l2 this2 h2 ->
  let endOffset :=
    textUtil.offsetAt doc (end_ (deref h2 (Sentence.newRange l2))) in
  let newEnd :=
    parser.parseSentenceLength
      (Sentence.newText l2 ++ js_substr doc endOffset 1)%string in
  Sentence.touchesEnd l2 = true
  /\ (newEnd = -1 \/ newEnd <> strlen (Sentence.newText l2) ->
      Sentence.applyTextChanges this h (pre ++ change :: post) deltas doc
      = (Normal false, this2,
         match Sentence.state this2 with Some st => markInvalid st h2 | None => h2 end)).
Proof.
  intros Hpre Hafter Heq Hall. cbv zeta.
  assert (Htouch : Sentence.touchesEnd l2 = true).
  { rewrite loop_app, Hpre in Hall. simpl in Hall.
    unfold Sentence.loopBody in Hall. rewrite Hafter, Heq in Hall.
    eapply loop_touchesEnd; [exact Hall|reflexivity]. }
  split; [exact Htouch|]. intros Hbad.
  unfold Sentence.applyTextChanges. rewrite Hall.
  unfold Sentence.afterLoop. rewrite Htouch, invalidateReturnFalse_eq.
  assert (Hb : Sentence.endChanged l2 h2 doc = true).
  { unfold Sentence.endChanged. cbv zeta.
    destruct Hbad as [-> | Hne]; [reflexivity|].
    apply orb_true_iff. right. apply negb_true_iff, Z.eqb_neq, Hne. }
  rewrite Hb. reflexivity.
Qed.

(** With an empty batch the loop and the check of the end are skipped: the
    answer of [isPassiveDifference] on the text against itself decides. *)
Lemma applyTextChanges_nil_oracle this h doc :
  Sentence.applyTextChanges this h [] [] doc
  = if parser.isPassiveDifference (Sentence.text this) (Sentence.text this)
    then (Normal true, this, h)
    else (Normal false, this,
          match Sentence.state this with Some st => markInvalid st h | None => h end).
Proof.
  unfold Sentence.applyTextChanges, Sentence.afterLoop. simpl.
  rewrite invalidateReturnFalse_eq.
  destruct (parser.isPassiveDifference _ _); [|reflexivity].
  destruct this; reflexivity.
Qed.

(** C9: [documentOffsetAt(p)] is [documentOffset + offsetAt(p)]; where
    [offsetAt(p)] is -1, the position being outside the sentence, it is
    [documentOffset - 1]. *)
Theorem documentOffsetAt_offsetAt this h (p : Position) :
  Sentence.documentOffsetAt h this p
  = Sentence.documentOffset this + Sentence.offsetAt h this p
  /\ (Sentence.offsetAt h this p = -1 ->
      Sentence.documentOffsetAt h this p = Sentence.documentOffset this - 1).
Proof.
  unfold Sentence.documentOffsetAt, Sentence.offsetAt.
  split; [reflexivity|]. intros ->. lia.
Qed.

End Reconciliation.

(** * Properties that rest on the specification's text-util *)

Section OnTheModel.
#[local] Existing Instance TextUtilModel.ops.

Implicit Types (this : Sentence.t) (h : Heap) (p q : Position).

(** Decides the comparisons of line and character numbers in the goal. *)
Ltac order_cases :=
  repeat match goal with
         | |- context [(?a >? ?b)] => rewrite (Z.gtb_ltb a b)
         | |- context [(?a >=? ?b)] => rewrite (Z.geb_leb a b)
         | |- context [(?a <? ?b)] => destruct (Z.ltb_spec a b)
         | |- context [(?a <=? ?b)] => destruct (Z.leb_spec a b)
         | |- context [(?a =? ?b)] => destruct (Z.eqb_spec a b)
         end;
  simpl in *; try lia; try discriminate; auto.

Ltac order_unfold :=
  unfold TextUtilModel.rangeContains, TextUtilModel.positionIsBefore,
    TextUtilModel.positionIsBeforeOrEqual, TextUtilModel.positionIsAfter,
    TextUtilModel.positionIsAfterOrEqual, TextUtilModel.positionIsEqual in *.

(** C6: for a sentence whose range has its start at or before its end,
    exactly one of [isBefore(p)], [isAfter(p)] and [contains(p)] holds, the
    one that [comparePosition(p)] names. *)
Theorem comparePosition_exactly_one h this p :
  TextUtilModel.positionIsBeforeOrEqual
    (start (deref h (Sentence.documentRange this)))
    (end_ (deref h (Sentence.documentRange this))) = true ->
  match Sentence.comparePosition h this p with
  | Sentence.before =>
      Sentence.isBefore h this p = true /\ Sentence.isAfter h this p = false
      /\ Sentence.contains h this p = false
  | Sentence.after =>
      Sentence.isBefore h this p = false /\ Sentence.isAfter h this p = true
      /\ Sentence.contains h this p = false
  | Sentence.containing =>
      Sentence.isBefore h this p = false /\ Sentence.isAfter h this p = false
      /\ Sentence.contains h this p = true
  end.
Proof.
  unfold Sentence.comparePosition, Sentence.isBefore, Sentence.isAfter,
    Sentence.contains. simpl.
  destruct (deref h (Sentence.documentRange this)) as [[sl sc] [el ec]].
  destruct p as [pl pc]. order_unfold. simpl. intros Hwf.
  revert Hwf. order_cases.
Qed.

(** C10: for a sentence whose range is not empty, [isBeforeOrAt(p)] holds
    exactly when [isBefore(p)] or [contains(p)] does, and [isAfterOrAt(p)]
    exactly when [isAfter(p)] or [contains(p)] does. *)
Theorem isBeforeOrAt_isAfterOrAt h this p :
  TextUtilModel.positionIsBefore
    (start (deref h (Sentence.documentRange this)))
    (end_ (deref h (Sentence.documentRange this))) = true ->
  Sentence.isBeforeOrAt h this p
  = Sentence.isBefore h this p || Sentence.contains h this p
  /\ Sentence.isAfterOrAt h this p
     = Sentence.isAfter h this p || Sentence.contains h this p.
Proof.
  unfold Sentence.isBeforeOrAt, Sentence.isAfterOrAt, Sentence.isBefore,
    Sentence.isAfter, Sentence.contains. simpl.
  destruct (deref h (Sentence.documentRange this)) as [[sl sc] [el ec]].
  destruct p as [pl pc]. order_unfold. simpl. intros Hne.
  revert Hne. split; order_cases.
Qed.

(** One character's walk ends strictly after where it starts. *)
Lemma advance_after p (c : ascii) :
  TextUtilModel.positionIsBefore p (TextUtilModel.advance p c) = true.
Proof.
  unfold TextUtilModel.advance. destruct p as [pl pc].
  destruct (TextUtilModel.isLineTerminator c); order_unfold; order_cases.
Qed.

Lemma positionIsBefore_trans p q r :
  TextUtilModel.positionIsBefore p q = true ->
  TextUtilModel.positionIsBeforeOrEqual q r = true ->
  TextUtilModel.positionIsBefore p r = true.
Proof.
  destruct p as [pl pc], q as [ql qc], r as [rl rc]. order_unfold. simpl.
  intros H1 H2. revert H1 H2. order_cases.
Qed.

Lemma positionIsBeforeOrEqual_refl p :
  TextUtilModel.positionIsBeforeOrEqual p p = true.
Proof. destruct p as [pl pc]. order_unfold. order_cases. Qed.

Lemma positionIsBefore_le p q :
  TextUtilModel.positionIsBefore p q = true ->
  TextUtilModel.positionIsBeforeOrEqual p q = true.
Proof.
  destruct p as [pl pc], q as [ql qc]. order_unfold. simpl.
  intros H1. revert H1. order_cases.
Qed.

Lemma positionIsBefore_not_equal p q :
  TextUtilModel.positionIsBefore p q = true ->
  TextUtilModel.positionIsEqual p q = false.
Proof.
  destruct p as [pl pc], q as [ql qc]. order_unfold. simpl.
  intros H1. revert H1. order_cases.
Qed.

Lemma positionIsEqual_refl p : TextUtilModel.positionIsEqual p p = true.
Proof. destruct p as [pl pc]. order_unfold. order_cases. Qed.

(** A walk never goes back. *)
Lemma walk_monotone (s : string) : forall (n : nat) p,
  TextUtilModel.positionIsBeforeOrEqual p (TextUtilModel.walk p s n) = true.
Proof.
  induction s as [|c rest IH]; intros [|n] p; simpl;
    try apply positionIsBeforeOrEqual_refl.
  apply positionIsBefore_le.
  eapply positionIsBefore_trans; [apply advance_after|apply IH].
Qed.

(** A walk of at least one character ends strictly after its start. *)
Lemma walk_after (s : string) (n : nat) p :
  (0 < n <= String.length s)%nat ->
  TextUtilModel.positionIsBefore p (TextUtilModel.walk p s n) = true.
Proof.
  destruct s as [|c rest], n as [|n]; simpl; try lia. intros _.
  eapply positionIsBefore_trans; [apply advance_after|apply walk_monotone].
Qed.

(** The search finds the offset that a walk has covered. *)
Lemma seek_walk (s : string) : forall (n : nat) p acc,
  (n <= String.length s)%nat ->
  TextUtilModel.seek p s (TextUtilModel.walk p s n) acc = acc + Z.of_nat n.
Proof.
  induction s as [|c rest IH]; intros n p acc Hn.
  - simpl in Hn. assert (n = 0%nat) as -> by lia. simpl.
    rewrite positionIsEqual_refl. lia.
  - destruct n as [|n].
    + simpl. rewrite positionIsEqual_refl. lia.
    + assert (Hne : TextUtilModel.positionIsEqual p
                      (TextUtilModel.walk p (String c rest) (S n)) = false).
      { apply positionIsBefore_not_equal, walk_after. simpl in *. lia. }
      cbn [TextUtilModel.seek]. rewrite Hne. cbn [TextUtilModel.walk].
      rewrite IH by (simpl in Hn; lia). lia.
Qed.

(** C7: for every local offset [o] with [0 <= o <= text.length],
    [offsetAt(positionAt(o))] is [o]. *)
Theorem offsetAt_positionAt h this (o : Z) :
  0 <= o <= strlen (Sentence.text this) ->
  Sentence.offsetAt h this (Sentence.positionAt h this o) = o.
Proof.
  intros Ho. unfold Sentence.offsetAt, Sentence.positionAt. simpl.
  unfold TextUtilModel.relativeOffsetAtAbsolutePosition,
    TextUtilModel.positionAtRelative.
  rewrite seek_walk by (unfold strlen in Ho; lia). lia.
Qed.

Lemma substring_all s : String.substring 0 (String.length s) s = s.
Proof. induction s as [|c s IH]; simpl; [reflexivity|]. rewrite IH. reflexivity. Qed.

Lemma substring_split s : forall n : nat,
  (n <= String.length s)%nat ->
  s = (String.substring 0 n s ++ String.substring n (String.length s - n) s)%string.
Proof.
  induction s as [|c s IH]; intros [|n] Hn; simpl in *; try lia; try reflexivity.
  - rewrite substring_all. reflexivity.
  - rewrite <- IH by lia. reflexivity.
Qed.

Lemma length_substring_prefix s : forall n : nat,
  (n <= String.length s)%nat -> String.length (String.substring 0 n s) = n.
Proof.
  induction s as [|c s IH]; intros [|n] Hn; simpl in *; try lia.
  rewrite IH by lia. reflexivity.
Qed.

Lemma substring_skip s1 : forall s2 (m : nat),
  String.substring (String.length s1) m (s1 ++ s2) = String.substring 0 m s2.
Proof. induction s1 as [|c s1 IH]; intros s2 m; simpl; [reflexivity|apply IH]. Qed.

Lemma length_append s1 s2 :
  String.length (s1 ++ s2) = (String.length s1 + String.length s2)%nat.
Proof. induction s1 as [|c s1 IH]; simpl; [reflexivity|]. rewrite IH. reflexivity. Qed.

Lemma walk_append s1 : forall s2 p (m : nat),
  TextUtilModel.walk p (s1 ++ s2) (String.length s1 + m)
  = TextUtilModel.walk (TextUtilModel.walk p s1 (String.length s1)) s2 m.
Proof. induction s1 as [|c s1 IH]; intros s2 p m; simpl; [reflexivity|apply IH]. Qed.

Lemma walk_prefix s1 : forall s2 p (n : nat),
  (n <= String.length s1)%nat ->
  TextUtilModel.walk p (s1 ++ s2) n = TextUtilModel.walk p s1 n.
Proof.
  induction s1 as [|c s1 IH]; intros s2 p [|n] Hn; simpl in *; try lia; try reflexivity.
  - destruct s2; reflexivity.
  - apply IH. lia.
Qed.

Lemma walk_line_monotone s : forall (n : nat) p,
  line p <= line (TextUtilModel.walk p s n).
Proof.
  induction s as [|c rest IH]; intros [|n] p; simpl; try lia.
  specialize (IH n (TextUtilModel.advance p c)).
  unfold TextUtilModel.advance in *.
  destruct (TextUtilModel.isLineTerminator c); simpl in *; lia.
Qed.

(** Shifting the start of a walk shifts its end. *)
Lemma walk_shift s : forall (n : nat) p (dl dc : Z),
  TextUtilModel.walk (mkPosition (line p + dl) (character p + dc)) s n
  = shift p (TextUtilModel.walk p s n) dl dc.
Proof.
  unfold shift.
  induction s as [|c rest IH]; intros [|n] p dl dc; simpl;
    rewrite ?Z.eqb_refl; try reflexivity.
  unfold TextUtilModel.advance at 1 3. simpl.
  destruct (TextUtilModel.isLineTerminator c) eqn:Hc.
  - pose proof (walk_line_monotone rest n (mkPosition (line p + 1) 0)) as Hmono.
    simpl in Hmono.
    specialize (IH n (mkPosition (line p + 1) 0) dl 0). simpl in IH.
    change (0 + 0) with 0 in IH.
    unfold TextUtilModel.advance. rewrite Hc.
    replace (line p + dl + 1) with (line p + 1 + dl) by lia.
    rewrite IH.
    destruct (Z.eqb_spec (line (TextUtilModel.walk (mkPosition (line p + 1) 0) rest n)) (line p + 1));
      destruct (Z.eqb_spec (line (TextUtilModel.walk (mkPosition (line p + 1) 0) rest n)) (line p));
      try lia; f_equal; lia.
  - specialize (IH n (mkPosition (line p) (character p + 1)) dl dc). simpl in IH.
    unfold TextUtilModel.advance. rewrite Hc.
    replace (character p + dc + 1) with (character p + 1 + dc) by lia.
    exact IH.
Qed.

Lemma positionIsEqual_eq p q : TextUtilModel.positionIsEqual p q = true -> p = q.
Proof.
  destruct p, q. unfold TextUtilModel.positionIsEqual. simpl.
  intros [H1 H2]%andb_true_iff. apply Z.eqb_eq in H1, H2. congruence.
Qed.

(** A search that succeeds has found an offset of the text that the walk reaches. *)
Lemma seek_sound s (target : Position) : forall p acc,
  0 <= acc -> TextUtilModel.seek p s target acc <> -1 ->
  exists n : nat, (n <= String.length s)%nat
    /\ TextUtilModel.seek p s target acc = acc + Z.of_nat n
    /\ TextUtilModel.walk p s n = target.
Proof.
  induction s as [|c rest IH]; intros p acc Hacc Hfound; simpl in *.
  - destruct (TextUtilModel.positionIsEqual p target) eqn:Heq; [|congruence].
    exists 0%nat. split; [lia|]. split; [lia|]. apply positionIsEqual_eq, Heq.
  - destruct (TextUtilModel.positionIsEqual p target) eqn:Heq.
    + exists 0%nat. split; [lia|]. split; [lia|]. apply positionIsEqual_eq, Heq.
    + destruct (IH (TextUtilModel.advance p c) (acc + 1)) as (n & Hn & Hseek & Hwalk);
        [lia|exact Hfound|].
      exists (S n). split; [lia|]. split; [lia|exact Hwalk].
Qed.

Lemma js_substring_prefix s (b : Z) :
  0 <= b <= strlen s -> js_substring s 0 b = String.substring 0 (Z.to_nat b) s.
Proof.
  intros Hb. unfold js_substring, clamp.
  rewrite (Z.min_l 0) by (unfold strlen; lia).
  rewrite (Z.max_l 0 0), (Z.min_l b), (Z.max_r 0 b), (Z.min_l 0 b), (Z.max_r 0 b) by lia.
  rewrite Z.sub_0_r. reflexivity.
Qed.

Lemma js_substring_from_suffix s (k : Z) :
  0 <= k <= strlen s ->
  js_substring_from s k
  = String.substring (Z.to_nat k) (String.length s - Z.to_nat k) s.
Proof.
  intros Hk. unfold js_substring_from, js_substring, clamp.
  rewrite (Z.min_l k), (Z.max_r 0 k), Z.min_id by lia.
  rewrite (Z.max_r 0 (strlen s)), (Z.min_l k), (Z.max_r k) by lia.
  unfold strlen. rewrite Z2Nat.inj_sub, Nat2Z.id by lia. reflexivity.
Qed.

Section Span.
Variables (psl : string -> Z) (ipd : string -> string -> bool).
#[local] Abbreviation P0 := (ParserModel.opsWith psl ipd).


Lemma translate_walk (r : Range) (text : string) (d : TextUtilModel.RangeDelta) :
  TextUtilModel.positionIsBeforeOrEqual (end_ (TextUtilModel.editRange d)) (start r) = true ->
  TextUtilModel.walk (start r) text (String.length text) = end_ r ->
  TextUtilModel.walk (start (TextUtilModel.rangeDeltaTranslate r d)) text
    (String.length text)
  = end_ (TextUtilModel.rangeDeltaTranslate r d).
Proof.
  intros Hbefore Hwalk. unfold TextUtilModel.rangeDeltaTranslate. simpl.
  unfold TextUtilModel.positionRangeDeltaTranslate.
  pose proof (walk_line_monotone text (String.length text) (start r)) as Hmono.
  rewrite Hwalk in Hmono.
  assert (Hle : line (end_ (TextUtilModel.editRange d)) <= line (start r)).
  { revert Hbefore. unfold TextUtilModel.positionIsBeforeOrEqual.
    destruct (Z.ltb_spec (line (end_ (TextUtilModel.editRange d))) (line (start r)));
      destruct (Z.eqb_spec (line (end_ (TextUtilModel.editRange d))) (line (start r)));
      simpl; try lia; discriminate. }
  destruct (Z.eqb_spec (line (start r)) (line (end_ (TextUtilModel.editRange d)))) as [Hsame|Hlater].
  - rewrite walk_shift, Hwalk. unfold shift. rewrite Hsame. reflexivity.
  - replace (character (start r)) with (character (start r) + 0) at 1 by lia.
    rewrite walk_shift, Hwalk. unfold shift.
    destruct (Z.eqb_spec (line (end_ r)) (line (end_ (TextUtilModel.editRange d)))); [lia|].
    destruct (Z.eqb_spec (line (end_ r)) (line (start r))); f_equal; lia.
Qed.

(** The walk over a text reaches the end of any of its prefixes first. *)
Lemma walk_through_prefix (text : string) (n : nat) p :
  (n <= String.length text)%nat ->
  TextUtilModel.walk p text (String.length text)
  = TextUtilModel.walk (TextUtilModel.walk p text n)
      (String.substring n (String.length text - n) text)
      (String.length (String.substring n (String.length text - n) text)).
Proof.
  intros Hn. pose proof (substring_split text n Hn) as Hsplit.
  pose proof (length_substring_prefix text n Hn) as Hlen.
  set (A := String.substring 0 n text) in *.
  set (C := String.substring n (String.length text - n) text) in *.
  assert (Hn' : TextUtilModel.walk p text n
                = TextUtilModel.walk p A (String.length A)).
  { rewrite Hsplit, Hlen. apply walk_prefix. lia. }
  rewrite Hn'. rewrite Hsplit at 1 2.
  rewrite length_append. apply walk_append.
Qed.

Lemma splice_walk (origin : Position) (text : string)
    (change : vscode.TextDocumentContentChangeEvent) (b : Z) (endR : Position) :
  TextUtilModel.walk origin text (String.length text) = endR ->
  TextUtilModel.relativeOffsetAtAbsolutePosition text origin
    (start (vscode.range change)) = b ->
  b <> -1 ->
  0 <= vscode.rangeLength change ->
  TextUtilModel.relativeOffsetAtAbsolutePosition text origin
    (end_ (vscode.range change)) = b + vscode.rangeLength change ->
  let newText :=
    (js_substring text 0 b ++ vscode.text change
     ++ js_substring_from text (b + vscode.rangeLength change))%string in
  TextUtilModel.walk origin newText (String.length newText)
  = TextUtilModel.positionRangeDeltaTranslateEnd endR
      (TextUtilModel.rangeDeltaOf change).
Proof.
  unfold TextUtilModel.relativeOffsetAtAbsolutePosition.
  intros Hwalk Hb Hfound Hrl He.
  destruct (seek_sound text (start (vscode.range change)) origin 0)
    as (nb & Hnb & Hseekb & Hwalkb); [lia|congruence|].
  destruct (seek_sound text (end_ (vscode.range change)) origin 0)
    as (ne & Hne & Hseeke & Hwalke); [lia|lia|].
  assert (Hbn : b = Z.of_nat nb) by lia.
  assert (Hen : b + vscode.rangeLength change = Z.of_nat ne) by lia.
  cbv zeta. rewrite Hen, Hbn.
  rewrite js_substring_prefix, js_substring_from_suffix by (unfold strlen; lia).
  rewrite !Nat2Z.id.
  set (A := String.substring 0 nb text).
  set (C := String.substring ne (String.length text - ne) text).
  assert (HlenA : String.length A = nb) by (apply length_substring_prefix, Hnb).
  assert (HwalkA : TextUtilModel.walk origin A (String.length A)
                   = start (vscode.range change)).
  { rewrite <- Hwalkb, HlenA.
    rewrite (substring_split text nb Hnb) at 1. fold A.
    rewrite walk_prefix by lia. reflexivity. }
  rewrite !length_append, !walk_append, HwalkA.
  rewrite (walk_through_prefix text ne origin Hne) in Hwalk. fold C in Hwalk.
  rewrite Hwalke in Hwalk. rewrite <- Hwalk.
  unfold TextUtilModel.positionRangeDeltaTranslateEnd,
    TextUtilModel.positionRangeDeltaTranslate, TextUtilModel.rangeDeltaOf.
  cbn [TextUtilModel.editRange TextUtilModel.linesAdded
       TextUtilModel.lastLineCharsAdded].
  unfold TextUtilModel.positionAtRelative, strlen. rewrite Nat2Z.id.
  set (newEnd := TextUtilModel.walk (start (vscode.range change))
                   (vscode.text change) (String.length (vscode.text change))).
  pose proof (walk_shift C (String.length C) (end_ (vscode.range change))
                (line newEnd - line (end_ (vscode.range change)))
                (character newEnd - character (end_ (vscode.range change)))) as Hshift.
  unfold shift in Hshift.
  replace (line (end_ (vscode.range change))
           + (line newEnd - line (end_ (vscode.range change)))) with (line newEnd)
    in Hshift by lia.
  replace (character (end_ (vscode.range change))
           + (character newEnd - character (end_ (vscode.range change))))
    with (character newEnd) in Hshift by lia.
  destruct newEnd as [nl nc]. simpl in Hshift. exact Hshift.
Qed.

Lemma deref_alloc_new (v : Range) (h : Heap) : deref (alloc v h).2 (alloc v h).1 = v.
Proof.
  unfold deref, alloc. simpl. rewrite lookup_total_app_r by lia.
  rewrite Nat.sub_diag. reflexivity.
Qed.

Lemma deref_alloc_old (v : Range) (h : Heap) (r : ref) :
  (r < length (ranges h))%nat -> deref (alloc v h).2 r = deref h r.
Proof. intros Hr. unfold deref, alloc. simpl. apply lookup_total_app_l, Hr. Qed.

Lemma deref_setEnd (r : ref) (p : Position) (h : Heap) :
  (r < length (ranges h))%nat ->
  deref (setEnd r p h) r = mkRange (start (deref h r)) p.
Proof.
  intros Hr. unfold deref, setEnd. simpl.
  apply list_lookup_total_insert_eq, Hr.
Qed.

Lemma classified_Before (r e : Range) :
  ParserModel.sentenceRangeContainment r e = parser.Before ->
  TextUtilModel.positionIsBeforeOrEqual (end_ e) (start r) = true.
Proof.
  unfold ParserModel.sentenceRangeContainment.
  destruct (TextUtilModel.positionIsBeforeOrEqual (end_ e) (start r)); [reflexivity|].
  destruct (TextUtilModel.positionIsBeforeOrEqual (end_ r) (start e)); [discriminate|].
  destruct (_ && _); discriminate.
Qed.

Lemma loopBody_spans (deltas : list (@textUtil.RangeDelta TextUtilModel.ops))
    idx change l this h l' this' h' :
  deltas !! idx
  = Some (TextUtilModel.rangeDeltaOf change : @textUtil.RangeDelta TextUtilModel.ops) ->
  spans l h ->
  Sentence.rangeLengthFits (P := P0) change l h = true ->
  Sentence.loopBody (P := P0) deltas idx change l this h
  = Sentence.Continue l' this' h' ->
  spans l' h'.
Proof.
  intros Hd [Hvalid Hwalk] Hfit. unfold Sentence.loopBody, Sentence.rangeLengthFits in *.
  cbn [parser.sentenceRangeContainment ParserModel.opsWith] in *. cbv zeta in *.
  destruct (ParserModel.sentenceRangeContainment
              (deref h (Sentence.newRange l)) (vscode.range change)) eqn:Hclass.
  - (* Before *)
    apply classified_Before in Hclass. rewrite Hd.
    set (moved := TextUtilModel.rangeDeltaTranslate (deref h (Sentence.newRange l))
                    (TextUtilModel.rangeDeltaOf change)).
    assert (Hmoved : TextUtilModel.walk (start moved) (Sentence.newText l)
                       (String.length (Sentence.newText l)) = end_ moved).
    { apply translate_walk; [exact Hclass|exact Hwalk]. }
    destruct (Sentence.newErrorRange l) as [e|]; intros Hbody;
      inversion Hbody; subst; clear Hbody; split; simpl.
    + rewrite !length_app. simpl. lia.
    + unfold deref. simpl. rewrite lookup_total_app_l by (rewrite length_app; simpl; lia).
      rewrite lookup_total_app_r by lia. rewrite Nat.sub_diag. exact Hmoved.
    + rewrite length_app. simpl. lia.
    + unfold deref. simpl. rewrite lookup_total_app_r by lia.
      rewrite Nat.sub_diag. exact Hmoved.
  - (* After *)
    destruct (textUtil.positionIsEqual _ _); intros Hbody;
      inversion Hbody; subst; split; assumption.
  - (* Crosses *)
    discriminate.
  - (* Contains *)
    destruct (Z.eqb_spec
                (textUtil.relativeOffsetAtAbsolutePosition (Sentence.newText l)
                   (start (deref h (Sentence.newRange l)))
                   (start (vscode.range change))) (-1)) as [Hmiss|Hfound].
    + intros Hbody. inversion Hbody; subst. split; assumption.
    + rewrite Hd. intros Hbody. inversion Hbody; subst; clear Hbody.
      simpl in Hfit. apply andb_true_iff in Hfit as [Hrl Hend].
      apply Z.leb_le in Hrl. apply Z.eqb_eq in Hend.
      split; simpl.
      * unfold setEnd. simpl. rewrite length_insert. exact Hvalid.
      * rewrite deref_setEnd by exact Hvalid. simpl.
        apply (splice_walk _ _ change _ _ Hwalk eq_refl Hfound Hrl Hend).
Qed.

Lemma loop_spans changes : forall (deltas : list (@textUtil.RangeDelta TextUtilModel.ops))
    idx l this h l' this' h',
  (forall (i : nat) c, changes !! i = Some c ->
     deltas !! (idx + i)%nat
     = Some (TextUtilModel.rangeDeltaOf c : @textUtil.RangeDelta TextUtilModel.ops)) ->
  spans l h ->
  Sentence.rangeLengthsFit (P := P0) deltas idx changes l this h = true ->
  Sentence.loop (P := P0) deltas idx changes l this h
  = Sentence.Continue l' this' h' ->
  spans l' h'.
Proof.
  induction changes as [|c cs IH]; intros deltas idx l this h l' this' h' Hd Hsp Hfit Hloop;
    cbn [Sentence.loop Sentence.rangeLengthsFit] in *.
  - inversion Hloop; subst. exact Hsp.
  - apply andb_true_iff in Hfit as [Hfit1 Hfit].
    destruct (Sentence.loopBody (TU := TextUtilModel.ops) (P := P0)
                deltas idx c l this h) as [l1 this1 h1|res] eqn:Hbody;
      [|discriminate].
    eapply (IH deltas (S idx)); [| |exact Hfit|exact Hloop].
    + intros i c' Hc'. replace (S idx + i)%nat with (idx + S i)%nat by lia.
      apply Hd. exact Hc'.
    + eapply loopBody_spans; [|exact Hsp|exact Hfit1|exact Hbody].
      specialize (Hd 0%nat c eq_refl). rewrite Nat.add_0_r in Hd. exact Hd.
Qed.

(** C5: a sentence whose text spans its range (the offset of the range's
    end in the sentence is the text's length) still does after an
    [applyTextChanges] that returns [true], when every delta is the delta of
    its edit and the [rangeLength] of every edit applied inside the sentence
    is the distance between the offsets of the edit's start and end. *)
Theorem applyTextChanges_true_keeps_span this h changes
    (deltas : list (@textUtil.RangeDelta TextUtilModel.ops)) doc :
  (Sentence.documentRange this < length (ranges h))%nat ->
  Sentence.textSpansRange h this ->
  deltas = map TextUtilModel.rangeDeltaOf changes ->
  Sentence.rangeLengthsFit (P := P0) deltas 0 changes
    (Sentence.initLocals this) this h = true ->
  let res := Sentence.applyTextChanges (P := P0) this h changes deltas doc in
  res.1.1 = Normal true -> Sentence.textSpansRange res.2 res.1.2.
Proof.
  intros Hvalid Hinv -> Hfit. cbv zeta. unfold Sentence.applyTextChanges.
  destruct (Sentence.loop (TU := TextUtilModel.ops) (P := P0)
              (map TextUtilModel.rangeDeltaOf changes) 0 changes
              (Sentence.initLocals this) this h) as [l1 this1 h1|res] eqn:Hloop.
  - assert (Hsp : spans l1 h1).
    { eapply loop_spans; [| |exact Hfit|exact Hloop].
      - intros i c Hc. simpl. rewrite list_lookup_fmap, Hc. reflexivity.
      - split; [exact Hvalid|]. simpl.
        unfold Sentence.textSpansRange, Sentence.offsetAt in Hinv. simpl in Hinv.
        unfold TextUtilModel.relativeOffsetAtAbsolutePosition in Hinv.
        destruct (seek_sound (Sentence.text this)
                    (end_ (deref h (Sentence.documentRange this)))
                    (start (deref h (Sentence.documentRange this))) 0)
          as (n & Hn & Hseek & Hwalk); [lia|unfold strlen in Hinv; lia|].
        assert (n = String.length (Sentence.text this)) as <-
          by (unfold strlen in Hinv; lia).
        exact Hwalk. }
    destruct (afterLoop_cases (P := P0) l1 this1 h1 doc) as [-> | ->]; simpl;
      [|discriminate].
    intros _. destruct Hsp as [_ Hwalk].
    unfold Sentence.textSpansRange, Sentence.offsetAt. simpl.
    unfold TextUtilModel.relativeOffsetAtAbsolutePosition. rewrite <- Hwalk.
    rewrite seek_walk by lia. unfold strlen. lia.
  - pose proof (loop_spec (TU := TextUtilModel.ops) (P := P0)
                  (map TextUtilModel.rangeDeltaOf changes) changes 0
                  (Sentence.initLocals this) this h) as Hspec.
    cbv zeta in Hspec. rewrite Hloop in Hspec.
    destruct Hspec as (_ & _ & Hlog & _).
    destruct res as [[[[]|] this1] h1]; simpl in *; try discriminate. contradiction.
Qed.

End Span.

End OnTheModel.

(** * The theorems at work on a sentence *)

Section Instances.
#[local] Existing Instance TextUtilModel.ops.
#[local] Existing Instance ParserModel.ops.

Import Fixture.

(** Section 8, pure shift: an insertion before the sentence moves its range
    and offset and keeps its text. *)
Example pure_shift :
  Sentence.applyTextChanges sentence store
    [insertBefore] (deltasOf [insertBefore]) "abcd12345foo."
  = (Normal true, Sentence.mk "foo." 1%nat 9 (Some 7%nat), shiftedStore).
Proof. reflexivity. Qed.

(** Section 8, unaffected tail. *)
Example unaffected_tail :
  Sentence.applyTextChanges sentence store
    [insertAfter] (deltasOf [insertAfter]) "12345foo.           x"
  = (Normal true, sentence, store).
Proof. reflexivity. Qed.

(** C1 fails on the code.  An edit before the sentence followed by one
    across it: [false] is returned with [documentOffset] at 9, not 5.  An
    edit inside the sentence that is not passive: [false] is returned with
    the end of the sentence's range object at character 10, not 9. *)
Lemma applyTextChanges_false_moves_offset_and_end :
  (let res :=
     Sentence.applyTextChanges sentence store
       [insertBefore; deleteAcross] (deltasOf [insertBefore; deleteAcross]) "" in
   res.1.1 = Normal false
   /\ Sentence.documentOffset res.1.2 = 9
   /\ Sentence.documentOffset sentence = 5)
  /\ (let res :=
        Sentence.applyTextChanges sentence store
          [replaceInside] (deltasOf [replaceInside]) "12345barx." in
      res.1.1 = Normal false
      /\ deref res.2 (Sentence.documentRange res.1.2)
         = mkRange (mkPosition 0 5) (mkPosition 0 10)
      /\ deref store (Sentence.documentRange sentence)
         = mkRange (mkPosition 0 5) (mkPosition 0 9)).
Proof. repeat split. Qed.

Lemma applyTextChanges_false_keeps_text_and_start_witness :
  (Sentence.documentRange sentence < length (ranges store))%nat
  /\ (Sentence.applyTextChanges sentence store
        [insertBefore; deleteAcross] (deltasOf [insertBefore; deleteAcross]) "").1.1
     = Normal false
  /\ Sentence.documentOffset
       (Sentence.applyTextChanges sentence store
          [insertBefore; deleteAcross] (deltasOf [insertBefore; deleteAcross]) "").1.2
     = Sentence.documentOffset sentence + totalGrowth [insertBefore].
Proof.
  split; [vm_compute; lia|]. split; [reflexivity|].
  refine (proj1 (proj2 (proj2 (proj2
            (applyTextChanges_false_keeps_text_and_start sentence store
               [insertBefore; deleteAcross]
               (deltasOf [insertBefore; deleteAcross]) "" _ _)))));
    [vm_compute; lia|reflexivity].
Defined.

Lemma applyTextChanges_crosses_stops_witness :
  Sentence.loop (deltasOf [insertBefore; deleteAcross; insertAfter; replaceInside])
    0 [insertBefore] (Sentence.initLocals sentence) sentence store
  = Sentence.Continue shiftedLocals shifted shiftedStore
  /\ parser.sentenceRangeContainment
       (deref shiftedStore (Sentence.newRange shiftedLocals))
       (vscode.range deleteAcross) = parser.Crosses
  /\ Sentence.applyTextChanges sentence store
       ([insertBefore] ++ deleteAcross :: [insertAfter; replaceInside])
       (deltasOf [insertBefore; deleteAcross; insertAfter; replaceInside]) ""
     = (Normal false, shifted, markInvalid 7%nat shiftedStore).
Proof.
  split; [reflexivity|]. split; [reflexivity|].
  apply (applyTextChanges_crosses_stops sentence store [insertBefore] deleteAcross
           [insertAfter; replaceInside] _ "" shiftedLocals shifted shiftedStore);
    reflexivity.
Defined.

Lemma applyTextChanges_touchesEnd_revalidates_witness :
  parser.sentenceRangeContainment
    (deref store (Sentence.newRange (Sentence.initLocals sentence)))
    (vscode.range insertAtEnd) = parser.After
  /\ textUtil.positionIsEqual
       (end_ (deref store (Sentence.newRange (Sentence.initLocals sentence))))
       (start (vscode.range insertAtEnd)) = true
  /\ parser.parseSentenceLength "foo.x" = -1
  /\ Sentence.applyTextChanges sentence store
       ([] ++ insertAtEnd :: [insertAfter]) (deltasOf [insertAtEnd; insertAfter])
       "12345foo.x"
     = (Normal false, sentence, markInvalid 7%nat store).
Proof.
  split; [reflexivity|]. split; [reflexivity|]. split; [reflexivity|].
  apply (applyTextChanges_touchesEnd_revalidates sentence store [] insertAtEnd
           [insertAfter] (deltasOf [insertAtEnd; insertAfter]) "12345foo.x"
           (Sentence.initLocals sentence) sentence store
           (Sentence.mkLocals "foo." 0%nat None true) sentence store);
    try reflexivity.
  left. reflexivity.
Defined.

(** Section 8, interior passive edit, after a shift: the blanks after the
    sentence are replaced; the text and the range's end follow. *)
Example interior_passive_edit :
  Sentence.applyTextChanges padded paddedStore
    [insertBefore; replaceBlanks] (deltasOf [insertBefore; replaceBlanks]) ""
  = (Normal true,
     Sentence.mk ("foo." ++ String "010" " ") 1%nat 9 (Some 7%nat),
     mkHeap [mkRange (mkPosition 0 5) (mkPosition 0 11);
             mkRange (mkPosition 0 9) (mkPosition 1 1)] []).
Proof. reflexivity. Qed.

(** Section 8, interior non-passive edit: the state is marked. *)
Example interior_non_passive_edit :
  (Sentence.applyTextChanges sentence store
     [replaceInside] (deltasOf [replaceInside]) "12345barx.").1.1 = Normal false
  /\ markedInvalid
       (Sentence.applyTextChanges sentence store
          [replaceInside] (deltasOf [replaceInside]) "12345barx.").2 = [7%nat].
Proof. split; reflexivity. Qed.

Lemma applyTextChanges_true_keeps_span_witness :
  (Sentence.documentRange padded < length (ranges paddedStore))%nat
  /\ Sentence.textSpansRange paddedStore padded
  /\ Sentence.rangeLengthsFit (deltasOf [insertBefore; replaceBlanks]) 0
       [insertBefore; replaceBlanks] (Sentence.initLocals padded) padded paddedStore
     = true
  /\ (Sentence.applyTextChanges padded paddedStore
        [insertBefore; replaceBlanks] (deltasOf [insertBefore; replaceBlanks]) "").1.1
     = Normal true
  /\ Sentence.textSpansRange
       (Sentence.applyTextChanges padded paddedStore
          [insertBefore; replaceBlanks] (deltasOf [insertBefore; replaceBlanks]) "").2
       (Sentence.applyTextChanges padded paddedStore
          [insertBefore; replaceBlanks] (deltasOf [insertBefore; replaceBlanks]) "").1.2.
Proof.
  split; [vm_compute; lia|]. split; [reflexivity|]. split; [reflexivity|].
  split; [reflexivity|].
  apply (applyTextChanges_true_keeps_span ParserModel.parseSentenceLength
           ParserModel.isPassiveDifference padded paddedStore
           [insertBefore; replaceBlanks] (deltasOf [insertBefore; replaceBlanks]) "");
    [vm_compute; lia|reflexivity|reflexivity|reflexivity|reflexivity].
Defined.

Lemma documentOffsetAt_offsetAt_witness :
  Sentence.offsetAt store sentence (mkPosition 3 0) = -1
  /\ Sentence.documentOffsetAt store sentence (mkPosition 3 0) = 4.
Proof.
  split; [reflexivity|].
  apply (proj2 (documentOffsetAt_offsetAt sentence store (mkPosition 3 0))).
  reflexivity.
Defined.

Lemma comparePosition_exactly_one_witness :
  TextUtilModel.positionIsBeforeOrEqual
    (start (deref store (Sentence.documentRange sentence)))
    (end_ (deref store (Sentence.documentRange sentence))) = true
  /\ Sentence.comparePosition store sentence (mkPosition 0 7) = Sentence.containing
  /\ Sentence.isBefore store sentence (mkPosition 0 7) = false
  /\ Sentence.isAfter store sentence (mkPosition 0 7) = false
  /\ Sentence.contains store sentence (mkPosition 0 7) = true.
Proof.
  split; [reflexivity|]. split; [reflexivity|].
  apply (comparePosition_exactly_one store sentence (mkPosition 0 7)).
  reflexivity.
Defined.

Lemma isBeforeOrAt_isAfterOrAt_witness :
  TextUtilModel.positionIsBefore
    (start (deref store (Sentence.documentRange sentence)))
    (end_ (deref store (Sentence.documentRange sentence))) = true
  /\ Sentence.isBeforeOrAt store sentence (mkPosition 0 5)
     = Sentence.isBefore store sentence (mkPosition 0 5)
       || Sentence.contains store sentence (mkPosition 0 5)
  /\ Sentence.isAfterOrAt store sentence (mkPosition 0 5)
     = Sentence.isAfter store sentence (mkPosition 0 5)
       || Sentence.contains store sentence (mkPosition 0 5).
Proof.
  split; [reflexivity|].
  apply (isBeforeOrAt_isAfterOrAt store sentence (mkPosition 0 5)).
  reflexivity.
Defined.

Lemma offsetAt_positionAt_witness :
  0 <= 2 <= strlen (Sentence.text sentence)
  /\ Sentence.positionAt store sentence 2 = mkPosition 0 7
  /\ Sentence.offsetAt store sentence (Sentence.positionAt store sentence 2) = 2.
Proof.
  assert (Hrange : 0 <= 2 <= strlen (Sentence.text sentence))
    by (vm_compute; split; discriminate).
  split; [exact Hrange|]. split; [reflexivity|].
  apply (offsetAt_positionAt store sentence 2 Hrange).
Defined.

End Instances.

(** * Further properties of [applyTextChanges], for every text-util and parser *)

Section MoreReconciliation.
Context {TU : textUtil.Ops} {P : parser.Ops}.

Implicit Types (this : Sentence.t) (h : Heap) (l : Sentence.Locals).
Implicit Types (change : vscode.TextDocumentContentChangeEvent).
Implicit Types (changes : list vscode.TextDocumentContentChangeEvent).
Implicit Types (deltas : list textUtil.RangeDelta).

Lemma deref_alloc_below (v : Range) h (r : ref) :
  (r < length (ranges h))%nat -> deref (alloc v h).2 r = deref h r.
Proof. intros Hr. unfold deref, alloc. simpl. apply lookup_total_app_l, Hr. Qed.

Lemma deref_extend h (extra : list Range) (log : list State) (r : ref) :
  (r < length (ranges h))%nat ->
  deref (mkHeap (ranges h ++ extra) log) r = deref h r.
Proof. intros Hr. unfold deref. simpl. apply lookup_total_app_l, Hr. Qed.

Lemma deref_setEnd_other (r r' : ref) (p : Position) h :
  r <> r' -> deref (setEnd r p h) r' = deref h r'.
Proof.
  intros Hne. unfold deref, setEnd. simpl.
  apply list_lookup_total_insert_ne, Hne.
Qed.

Lemma ranges_invalidateReturnFalse this h :
  ranges (Sentence.invalidateReturnFalse this h).2 = ranges h.
Proof.
  rewrite invalidateReturnFalse_eq. simpl.
  destruct (Sentence.state this); reflexivity.
Qed.

Lemma deref_ranges h h' (r : ref) : ranges h' = ranges h -> deref h' r = deref h r.
Proof. unfold deref. intros ->. reflexivity. Qed.

(** One turn of the loop writes no range object of the first store but the
    sentence's own, and none at all once the working range is a later one. *)
Lemma loopBody_kept (h0 : Heap) (r0 : ref) deltas idx change l this h :
  match Sentence.loopBody deltas idx change l this h with
  | Sentence.Continue l' _ h' =>
      (othersKept h0 r0 l h -> othersKept h0 r0 l' h')
      /\ (storeKept h0 l h -> storeKept h0 l' h')
  | Sentence.Exit res => ranges res.2 = ranges h
  end.
Proof.
  unfold Sentence.loopBody.
  destruct (parser.sentenceRangeContainment _ _); cbv zeta.
  - destruct (deltas !! idx) as [d|]; [|reflexivity].
    destruct (Sentence.newErrorRange l) as [e|]; simpl; split;
      intros (Hlen & Hkept & Hwork).
    all: split; [simpl; rewrite !length_app; simpl; lia|].
    all: split; [|first [simpl; lia|right; simpl; lia]].
    all: intros r Hr; try intros Hne; rewrite <- Hkept by assumption.
    all: simpl; rewrite <- ?app_assoc; apply deref_extend; lia.
  - destruct (textUtil.positionIsEqual _ _); simpl; split; intros H; exact H.
  - apply ranges_invalidateReturnFalse.
  - destruct (_ =? -1); [split; intros H; exact H|].
    destruct (deltas !! idx) as [d|]; [|reflexivity]. simpl.
    split; intros (Hlen & Hkept & Hwork);
      (split; [unfold setEnd; simpl; rewrite length_insert; exact Hlen|]);
      (split; [|exact Hwork]).
    + intros r Hr Hne. rewrite deref_setEnd_other; [apply Hkept; assumption|].
      destruct Hwork as [-> | Hfresh]; [congruence|lia].
    + intros r Hr. rewrite deref_setEnd_other; [apply Hkept; assumption|]. lia.
Qed.

Lemma loop_kept (h0 : Heap) (r0 : ref) deltas changes : forall idx l this h,
  match Sentence.loop deltas idx changes l this h with
  | Sentence.Continue l' _ h' =>
      (othersKept h0 r0 l h -> othersKept h0 r0 l' h')
      /\ (storeKept h0 l h -> storeKept h0 l' h')
  | Sentence.Exit res =>
      (othersKept h0 r0 l h ->
       (length (ranges h0) <= length (ranges res.2))%nat
       /\ forall r : ref, (r < length (ranges h0))%nat -> r <> r0 ->
            deref res.2 r = deref h0 r)
      /\ (storeKept h0 l h ->
          forall r : ref, (r < length (ranges h0))%nat -> deref res.2 r = deref h0 r)
  end.
Proof.
  induction changes as [|c cs IH]; intros idx l this h; simpl.
  - split; intros H; exact H.
  - pose proof (loopBody_kept h0 r0 deltas idx c l this h) as Hbody.
    destruct (Sentence.loopBody deltas idx c l this h) as [l1 this1 h1|res].
    + destruct Hbody as [Ho Hs]. specialize (IH (S idx) l1 this1 h1).
      destruct (Sentence.loop deltas (S idx) cs l1 this1 h1) as [l2 this2 h2|res];
        destruct IH as [IHo IHs]; split; intros H; auto.
    + split.
      * intros (Hlen & Hkept & _). rewrite Hbody. split; [exact Hlen|].
        intros r Hr Hne.
        rewrite (deref_ranges h res.2 r Hbody). apply Hkept; assumption.
      * intros (Hlen & Hkept & _) r Hr.
        rewrite (deref_ranges h res.2 r Hbody). apply Hkept, Hr.
Qed.

Lemma ranges_afterLoop l this h doc :
  ranges (Sentence.afterLoop l this h doc).2 = ranges h.
Proof.
  destruct (afterLoop_cases l this h doc) as [-> | ->]; simpl; [reflexivity|].
  destruct (Sentence.state this); reflexivity.
Qed.

(** X1: [applyTextChanges] writes no range object that was in the store
    before the call but the sentence's own: every other one is, after the
    call, as it was, however the call ends. *)
Theorem applyTextChanges_keeps_other_ranges this h changes deltas doc (r : ref) :
  (r < length (ranges h))%nat ->
  r <> Sentence.documentRange this ->
  deref (Sentence.applyTextChanges this h changes deltas doc).2 r = deref h r.
Proof.
  intros Hr Hne. unfold Sentence.applyTextChanges.
  pose proof (loop_kept h (Sentence.documentRange this) deltas changes 0
                (Sentence.initLocals this) this h) as Hloop.
  assert (Hinit : othersKept h (Sentence.documentRange this)
                    (Sentence.initLocals this) h).
  { split; [lia|]. split; [reflexivity|]. left. reflexivity. }
  destruct (Sentence.loop deltas 0 changes (Sentence.initLocals this) this h)
    as [l1 this1 h1|res].
  - destruct Hloop as [Ho _]. destruct (Ho Hinit) as (_ & Hkept & _).
    rewrite (deref_ranges h1 _ r (ranges_afterLoop l1 this1 h1 doc)).
    apply Hkept; assumption.
  - destruct Hloop as [Ho _]. destruct (Ho Hinit) as [_ Hkept].
    apply Hkept; assumption.
Qed.

(** X2: when the first edit of the batch is classified [Before], no range
    object that was in the store before the call is written at all, the
    sentence's own included: the loop goes on with a new object. *)
Theorem applyTextChanges_before_first_keeps_store
    this h change changes (d : textUtil.RangeDelta) deltas doc (r : ref) :
  parser.sentenceRangeContainment
    (deref h (Sentence.documentRange this)) (vscode.range change) = parser.Before ->
  (r < length (ranges h))%nat ->
  deref (Sentence.applyTextChanges this h (change :: changes) (d :: deltas) doc).2 r
  = deref h r.
Proof.
  intros Hclass Hr. unfold Sentence.applyTextChanges. cbn [Sentence.loop].
  pose proof (loopBody_kept h (Sentence.documentRange this) (d :: deltas) 0 change
                (Sentence.initLocals this) this h) as Hbody.
  assert (Hfirst : forall l1 this1 h1,
            Sentence.loopBody (d :: deltas) 0 change (Sentence.initLocals this) this h
            = Sentence.Continue l1 this1 h1 -> storeKept h l1 h1).
  { unfold Sentence.loopBody. cbn [Sentence.newRange Sentence.initLocals].
    rewrite Hclass. cbv zeta. cbn [lookup list_lookup Sentence.newErrorRange].
    intros l1 this1 h1 Heq. inversion Heq; subst; clear Heq.
    split; [simpl; rewrite length_app; lia|]. split; [|simpl; lia].
    intros r' Hr'. apply deref_alloc_below, Hr'. }
  destruct (Sentence.loopBody (d :: deltas) 0 change (Sentence.initLocals this) this h)
    as [l1 this1 h1|res] eqn:Hb.
  - specialize (Hfirst l1 this1 h1 eq_refl).
    pose proof (loop_kept h (Sentence.documentRange this) (d :: deltas) changes 1
                  l1 this1 h1) as Hloop.
    destruct (Sentence.loop (d :: deltas) 1 changes l1 this1 h1) as [l2 this2 h2|res].
    + destruct Hloop as [_ Hs]. destruct (Hs Hfirst) as (_ & Hkept & _).
      rewrite (deref_ranges h2 _ r (ranges_afterLoop l2 this2 h2 doc)).
      apply Hkept, Hr.
    + destruct Hloop as [_ Hs]. apply (Hs Hfirst), Hr.
  - apply deref_ranges, Hbody.
Qed.

(** Where the working range is after one turn: a new object after the
    [Before] case, the same object after any other. *)
Lemma loopBody_newRange deltas idx change l this h l1 this1 h1 :
  Sentence.loopBody deltas idx change l this h = Sentence.Continue l1 this1 h1 ->
  match parser.sentenceRangeContainment
          (deref h (Sentence.newRange l)) (vscode.range change) with
  | parser.Before =>
      Sentence.newRange l1 = length (ranges h)
      /\ (length (ranges h) < length (ranges h1))%nat
  | _ =>
      Sentence.newRange l1 = Sentence.newRange l
      /\ length (ranges h1) = length (ranges h)
  end.
Proof.
  unfold Sentence.loopBody.
  destruct (parser.sentenceRangeContainment _ _); cbv zeta.
  - destruct (deltas !! idx) as [d|]; [|discriminate].
    destruct (Sentence.newErrorRange l); intros Heq; inversion Heq; subst; simpl;
      rewrite !length_app; simpl; split; lia.
  - destruct (textUtil.positionIsEqual _ _); intros Heq; inversion Heq; subst;
      split; reflexivity.
  - rewrite invalidateReturnFalse_eq. discriminate.
  - destruct (_ =? -1); [intros Heq; inversion Heq; subst; split; reflexivity|].
    destruct (deltas !! idx) as [d|]; [|discriminate].
    intros Heq; inversion Heq; subst. simpl. rewrite length_insert.
    split; reflexivity.
Qed.

Lemma loop_newRange deltas changes : forall idx l this h l' this' h',
  Sentence.loop deltas idx changes l this h = Sentence.Continue l' this' h' ->
  (Sentence.editsBefore deltas idx changes l this h = [] ->
   Sentence.newRange l' = Sentence.newRange l)
  /\ (Sentence.editsBefore deltas idx changes l this h <> [] ->
      (length (ranges h) <= Sentence.newRange l')%nat).
Proof.
  induction changes as [|c cs IH]; intros idx l this h l' this' h' Hloop;
    cbn [Sentence.loop Sentence.editsBefore] in *.
  - inversion Hloop; subst. split; [reflexivity|congruence].
  - destruct (Sentence.loopBody deltas idx c l this h) as [l1 this1 h1|res] eqn:Hbody;
      [|discriminate].
    pose proof (loopBody_newRange _ _ _ _ _ _ _ _ _ Hbody) as Hstep.
    destruct (IH _ _ _ _ _ _ _ Hloop) as [IHnil IHcons].
    destruct (parser.sentenceRangeContainment _ _); destruct Hstep as [Hnew Hlen];
      cbn [app].
    2-4: rewrite <- Hnew, <- Hlen; split; assumption.
    split; [discriminate|]. intros _.
    destruct (Sentence.editsBefore deltas (S idx) cs l1 this1 h1) eqn:Hrest.
    + rewrite (IHnil eq_refl), Hnew. lia.
    + assert (length (ranges h1) <= Sentence.newRange l')%nat
        by (apply IHcons; discriminate).
      lia.
Qed.

(** What [afterLoop] has done when it returns [true]. *)
Lemma afterLoop_true l this h doc this' h' :
  Sentence.afterLoop l this h doc = (Normal true, this', h') ->
  parser.isPassiveDifference (Sentence.text this) (Sentence.newText l) = true
  /\ this' = Sentence.mk (Sentence.newText l) (Sentence.newRange l)
               (Sentence.documentOffset this) (Sentence.state this)
  /\ h' = h.
Proof.
  unfold Sentence.afterLoop. rewrite invalidateReturnFalse_eq.
  destruct (_ && _); [discriminate|].
  destruct (parser.isPassiveDifference _ _); [|discriminate].
  intros Heq. inversion Heq; subst. repeat split.
Qed.

(** X3: when [applyTextChanges] returns [true], [isPassiveDifference] has
    accepted the committed text against the text the sentence had before
    the call, and [documentOffset] has grown by [text.length - rangeLength]
    of every edit taken through the [Before] case. *)
Theorem applyTextChanges_true_is_passive this h changes deltas doc :
  let res := Sentence.applyTextChanges this h changes deltas doc in
  res.1.1 = Normal true ->
  parser.isPassiveDifference (Sentence.text this) (Sentence.text res.1.2) = true
  /\ Sentence.documentOffset res.1.2
     = Sentence.documentOffset this
       + totalGrowth
           (Sentence.editsBefore deltas 0 changes (Sentence.initLocals this) this h).
Proof.
  cbv zeta. unfold Sentence.applyTextChanges.
  pose proof (loop_spec deltas changes 0 (Sentence.initLocals this) this h) as Hspec.
  cbv zeta in Hspec.
  destruct (Sentence.loop deltas 0 changes (Sentence.initLocals this) this h)
    as [l1 this1 h1|res].
  - destruct Hspec as ((Htext & _) & _ & _ & Hoff).
    destruct (Sentence.afterLoop l1 this1 h1 doc) as [[[[]|] this2] h2] eqn:Hafter;
      simpl; try discriminate. intros _.
    apply afterLoop_true in Hafter as (Hpassive & -> & _). simpl.
    rewrite <- Htext. split; [exact Hpassive|exact Hoff].
  - destruct Hspec as (_ & _ & Hlog & _).
    destruct res as [[[[]|] this1] h1]; simpl in *; try discriminate. contradiction.
Qed.

(** X4: after a [true] return the sentence's [documentRange] is the object
    it was when no edit was taken through the [Before] case, and otherwise
    an object that was not in the store before the call. *)
Theorem applyTextChanges_true_range_object this h changes deltas doc :
  let res := Sentence.applyTextChanges this h changes deltas doc in
  let moved :=
    Sentence.editsBefore deltas 0 changes (Sentence.initLocals this) this h in
  res.1.1 = Normal true ->
  (moved = [] -> Sentence.documentRange res.1.2 = Sentence.documentRange this)
  /\ (moved <> [] -> (length (ranges h) <= Sentence.documentRange res.1.2)%nat).
Proof.
  cbv zeta. unfold Sentence.applyTextChanges.
  pose proof (loop_spec deltas changes 0 (Sentence.initLocals this) this h) as Hspec.
  cbv zeta in Hspec.
  destruct (Sentence.loop deltas 0 changes (Sentence.initLocals this) this h)
    as [l1 this1 h1|res] eqn:Hloop.
  - destruct (Sentence.afterLoop l1 this1 h1 doc) as [[[[]|] this2] h2] eqn:Hafter;
      simpl; try discriminate. intros _.
    apply afterLoop_true in Hafter as (_ & -> & _). simpl.
    apply (loop_newRange _ _ _ _ _ _ _ _ _ Hloop).
  - destruct Hspec as (_ & _ & Hlog & _).
    destruct res as [[[[]|] this1] h1]; simpl in *; try discriminate. contradiction.
Qed.

(** A turn of the loop reads [deltas] at [idx] only. *)
Lemma loopBody_deltas deltas deltas' idx idx' change l this h :
  deltas !! idx = deltas' !! idx' ->
  Sentence.loopBody deltas idx change l this h
  = Sentence.loopBody deltas' idx' change l this h.
Proof. intros Heq. unfold Sentence.loopBody. rewrite Heq. reflexivity. Qed.

Lemma loop_deltas deltas deltas' changes : forall idx idx' l this h,
  (forall i : nat, (i < length changes)%nat ->
     deltas !! (idx + i)%nat = deltas' !! (idx' + i)%nat) ->
  Sentence.loop deltas idx changes l this h
  = Sentence.loop deltas' idx' changes l this h.
Proof.
  induction changes as [|c cs IH]; intros idx idx' l this h Heq; simpl; [reflexivity|].
  rewrite (loopBody_deltas deltas deltas' idx idx').
  - destruct (Sentence.loopBody deltas' idx' c l this h) as [l1 this1 h1|res];
      [|reflexivity].
    apply IH. intros i Hi. specialize (Heq (S i)). simpl in Heq.
    replace (S idx + i)%nat with (idx + S i)%nat by lia.
    replace (S idx' + i)%nat with (idx' + S i)%nat by lia.
    apply Heq. lia.
  - specialize (Heq 0%nat). rewrite !Nat.add_0_r in Heq. apply Heq. simpl. lia.
Qed.

(** X5: an edit classified [After] that does not start at the working
    range's end, and an edit classified [Contains] whose start has no offset
    in the working text, have no effect: the batch without the edit and its
    delta gives the same result. *)
Theorem applyTextChanges_drops_edit_without_effect
    this h pre change post (dpre dpost : list textUtil.RangeDelta)
    (d : textUtil.RangeDelta) doc l1 this1 h1 :
  length dpre = length pre ->
  Sentence.loop (dpre ++ dpost) 0 pre (Sentence.initLocals this) this h
  = Sentence.Continue l1 this1 h1 ->
  (parser.sentenceRangeContainment
     (deref h1 (Sentence.newRange l1)) (vscode.range change) = parser.After
   /\ textUtil.positionIsEqual
        (end_ (deref h1 (Sentence.newRange l1))) (start (vscode.range change))
      = false)
  \/ (parser.sentenceRangeContainment
        (deref h1 (Sentence.newRange l1)) (vscode.range change) = parser.Contains
      /\ textUtil.relativeOffsetAtAbsolutePosition (Sentence.newText l1)
           (start (deref h1 (Sentence.newRange l1))) (start (vscode.range change))
         = -1) ->
  Sentence.applyTextChanges this h (pre ++ change :: post) (dpre ++ d :: dpost) doc
  = Sentence.applyTextChanges this h (pre ++ post) (dpre ++ dpost) doc.
Proof.
  intros Hlen Hpre Hnone. unfold Sentence.applyTextChanges.
  rewrite !loop_app.
  rewrite (loop_deltas (dpre ++ d :: dpost) (dpre ++ dpost) pre 0 0).
  2:{ intros i Hi. simpl. rewrite !lookup_app_l by lia. reflexivity. }
  rewrite Hpre. cbn [Sentence.loop].
  assert (Hbody : Sentence.loopBody (dpre ++ d :: dpost) (0 + length pre) change
                    l1 this1 h1 = Sentence.Continue l1 this1 h1).
  { unfold Sentence.loopBody.
    destruct Hnone as [[-> ->] | [-> ->]]; [reflexivity|].
    cbv zeta. rewrite Z.eqb_refl. reflexivity. }
  rewrite Hbody.
  rewrite (loop_deltas (dpre ++ d :: dpost) (dpre ++ dpost) post
             (S (0 + length pre)) (0 + length pre)); [reflexivity|].
  intros i Hi. simpl.
  rewrite !lookup_app_r by lia.
  replace (S (length pre + i) - length dpre)%nat with (S i) by lia.
  replace (length pre + i - length dpre)%nat with i by lia.
  reflexivity.
Qed.

(** Where [touchesEnd] comes from: it was set, or the edit was classified
    [After] and starts at the working range's end. *)
Lemma loopBody_touchesEnd_inv deltas idx change l this h l1 this1 h1 :
  Sentence.loopBody deltas idx change l this h = Sentence.Continue l1 this1 h1 ->
  Sentence.touchesEnd l1 = true ->
  Sentence.touchesEnd l = true
  \/ (parser.sentenceRangeContainment
        (deref h (Sentence.newRange l)) (vscode.range change) = parser.After
      /\ textUtil.positionIsEqual
           (end_ (deref h (Sentence.newRange l))) (start (vscode.range change))
         = true).
Proof.
  unfold Sentence.loopBody.
  destruct (parser.sentenceRangeContainment _ _); cbv zeta.
  - destruct (deltas !! idx) as [d|]; [|discriminate].
    destruct (Sentence.newErrorRange l); intros Heq; inversion Heq; subst; simpl;
      intros Ht; left; exact Ht.
  - destruct (textUtil.positionIsEqual _ _) eqn:Hend; intros Heq; inversion Heq; subst.
    + intros _. right. split; reflexivity.
    + intros Ht. left. exact Ht.
  - rewrite invalidateReturnFalse_eq. discriminate.
  - destruct (_ =? -1); [intros Heq; inversion Heq; subst; intros Ht; left; exact Ht|].
    destruct (deltas !! idx) as [d|]; [|discriminate].
    intros Heq; inversion Heq; subst. simpl. intros Ht. left. exact Ht.
Qed.

Lemma loop_touchesEnd_inv deltas changes : forall idx l this h l' this' h',
  Sentence.loop deltas idx changes l this h = Sentence.Continue l' this' h' ->
  Sentence.touchesEnd l' = true ->
  Sentence.touchesEnd l = true
  \/ exists pre change post l1 this1 h1,
       changes = pre ++ change :: post
       /\ Sentence.loop deltas idx pre l this h = Sentence.Continue l1 this1 h1
       /\ parser.sentenceRangeContainment
            (deref h1 (Sentence.newRange l1)) (vscode.range change) = parser.After
       /\ textUtil.positionIsEqual
            (end_ (deref h1 (Sentence.newRange l1))) (start (vscode.range change))
          = true.
Proof.
  induction changes as [|c cs IH]; intros idx l this h l' this' h' Hloop Ht;
    cbn [Sentence.loop] in Hloop.
  - inversion Hloop; subst. left. exact Ht.
  - destruct (Sentence.loopBody deltas idx c l this h) as [l1 this1 h1|res] eqn:Hbody;
      [|discriminate].
    destruct (IH _ _ _ _ _ _ _ Hloop Ht)
      as [Ht1 | (pre & e & post & l2 & this2 & h2 & -> & Hpre & Hclass & Hend)].
    + destruct (loopBody_touchesEnd_inv _ _ _ _ _ _ _ _ _ Hbody Ht1) as [Hl | [Hclass Hend]];
        [left; exact Hl|].
      right. exists [], c, cs, l, this, h. repeat split; assumption.
    + right. exists (c :: pre), e, post, l2, this2, h2.
      split; [reflexivity|]. split; [|split; assumption].
      cbn [Sentence.loop]. rewrite Hbody. exact Hpre.
Qed.

(** X6: [updatedDocumentText] is read only when some edit is classified
    [After] and starts at the working range's end: for a batch without
    such an edit the result is the same for every document text. *)
Theorem applyTextChanges_reads_document_when_touched
    this h changes deltas doc doc' :
  (forall pre change post l1 this1 h1,
     changes = pre ++ change :: post ->
     Sentence.loop deltas 0 pre (Sentence.initLocals this) this h
     = Sentence.Continue l1 this1 h1 ->
     parser.sentenceRangeContainment
       (deref h1 (Sentence.newRange l1)) (vscode.range change) = parser.After ->
     textUtil.positionIsEqual
       (end_ (deref h1 (Sentence.newRange l1))) (start (vscode.range change))
     = false) ->
  Sentence.applyTextChanges this h changes deltas doc
  = Sentence.applyTextChanges this h changes deltas doc'.
Proof.
  intros Hnone. unfold Sentence.applyTextChanges.
  destruct (Sentence.loop deltas 0 changes (Sentence.initLocals this) this h)
    as [l1 this1 h1|res] eqn:Hloop; [|reflexivity].
  assert (Ht : Sentence.touchesEnd l1 = false).
  { destruct (Sentence.touchesEnd l1) eqn:Ht; [|reflexivity].
    destruct (loop_touchesEnd_inv _ _ _ _ _ _ _ _ _ Hloop Ht)
      as [Hinit | (pre & e & post & l2 & this2 & h2 & Hsplit & Hpre & Hclass & Hend)].
    - discriminate.
    - rewrite (Hnone _ _ _ _ _ _ Hsplit Hpre Hclass) in Hend. discriminate. }
  unfold Sentence.afterLoop. rewrite Ht. reflexivity.
Qed.

Lemma length_substring (s : string) : forall n m : nat,
  String.length (String.substring n m s) = Nat.min m (String.length s - n).
Proof.
  induction s as [|c s IH]; intros [|n] [|m]; cbn [String.substring String.length];
    rewrite ?IH; lia.
Qed.

(** The length of a text after [rangeLength] of its characters, from
    [beginOffset] on, have been replaced: no more are removed than the text
    has. *)
Lemma strlen_js_substring_from (s : string) (k : Z) :
  0 <= k -> strlen (js_substring_from s k) = strlen s - Z.min k (strlen s).
Proof.
  intros Hk. unfold js_substring_from, js_substring, clamp.
  set (n := strlen s). assert (Hn : 0 <= n) by (unfold n, strlen; lia).
  rewrite (Z.min_id n), (Z.max_r 0 n) by lia.
  rewrite (Z.max_r 0 (Z.min k n)) by lia.
  rewrite (Z.min_l (Z.min k n) n), (Z.max_r (Z.min k n) n) by lia.
  unfold strlen at 1. rewrite length_substring.
  assert (Hlen : String.length s = Z.to_nat n) by (unfold n, strlen; lia).
  rewrite Hlen. lia.
Qed.

Lemma strlen_splice (s ins : string) (b rl : Z) :
  0 <= b <= strlen s -> 0 <= rl ->
  strlen (js_substring s 0 b ++ ins ++ js_substring_from s (b + rl))
  = strlen s + strlen ins - Z.min rl (strlen s - b).
Proof.
  intros Hb Hrl.
  assert (Happ : forall s1 s2 : string, strlen (s1 ++ s2) = strlen s1 + strlen s2).
  { intros s1 s2. unfold strlen. rewrite length_append. lia. }
  rewrite !Happ, strlen_js_substring_from by lia.
  rewrite js_substring_prefix by exact Hb.
  unfold strlen at 1. rewrite length_substring_prefix by (unfold strlen in Hb; lia).
  lia.
Qed.

(** X8: for a batch of one edit classified [Contains], whose start is at
    offset [beginOffset] of the text, a [true] return commits the text with
    the characters from [beginOffset] on replaced, at most as many as the
    text has there, and [getDocumentEndOffset] moves by the length of the
    inserted text less the number of characters removed. *)
Theorem applyTextChanges_contains_end_offset this h change (d : textUtil.RangeDelta) doc :
  let beginOffset :=
    textUtil.relativeOffsetAtAbsolutePosition (Sentence.text this)
      (start (deref h (Sentence.documentRange this))) (start (vscode.range change)) in
  let res := Sentence.applyTextChanges this h [change] [d] doc in
  parser.sentenceRangeContainment
    (deref h (Sentence.documentRange this)) (vscode.range change) = parser.Contains ->
  0 <= beginOffset <= strlen (Sentence.text this) ->
  0 <= vscode.rangeLength change ->
  res.1.1 = Normal true ->
  Sentence.text res.1.2
  = (js_substring (Sentence.text this) 0 beginOffset
     ++ vscode.text change
     ++ js_substring_from (Sentence.text this)
          (beginOffset + vscode.rangeLength change))%string
  /\ Sentence.getDocumentEndOffset res.1.2
     = Sentence.getDocumentEndOffset this + strlen (vscode.text change)
       - Z.min (vscode.rangeLength change) (strlen (Sentence.text this) - beginOffset).
Proof.
  cbv zeta. intros Hclass Hb Hrl.
  unfold Sentence.applyTextChanges. cbn [Sentence.loop]. unfold Sentence.loopBody.
  cbn [Sentence.initLocals Sentence.newRange Sentence.newText Sentence.newErrorRange
       Sentence.touchesEnd lookup list_lookup].
  rewrite Hclass. cbv zeta.
  destruct (Z.eqb_spec
              (textUtil.relativeOffsetAtAbsolutePosition (Sentence.text this)
                 (start (deref h (Sentence.documentRange this)))
                 (start (vscode.range change))) (-1)) as [Hmiss|_]; [lia|].
  match goal with
  | |- context [Sentence.afterLoop ?l ?t ?hh doc] =>
      destruct (Sentence.afterLoop l t hh doc) as [[[[]|] this2] h2] eqn:Hafter
  end; simpl; try discriminate.
  intros _. apply afterLoop_true in Hafter as (_ & -> & _).
  unfold Sentence.getDocumentEndOffset. simpl. split; [reflexivity|].
  rewrite strlen_splice by assumption. lia.
Qed.

(** X9: a batch whose edits are all classified [After] against the
    sentence's range and do not start at its end leaves the sentence and
    the store as they were and returns [true], whatever the deltas and the
    document text, the oracle accepting a text against itself. *)
Theorem applyTextChanges_after_only this h changes deltas doc :
  parser.isPassiveDifference (Sentence.text this) (Sentence.text this) = true ->
  Forall (fun change =>
            parser.sentenceRangeContainment
              (deref h (Sentence.documentRange this)) (vscode.range change)
            = parser.After
            /\ textUtil.positionIsEqual
                 (end_ (deref h (Sentence.documentRange this)))
                 (start (vscode.range change)) = false) changes ->
  Sentence.applyTextChanges this h changes deltas doc = (Normal true, this, h).
Proof.
  intros Hrefl Hafter. unfold Sentence.applyTextChanges.
  assert (Hloop : forall idx,
            Sentence.loop deltas idx changes (Sentence.initLocals this) this h
            = Sentence.Continue (Sentence.initLocals this) this h).
  { induction Hafter as [|c cs [Hclass Hend] _ IH]; intros idx; cbn [Sentence.loop];
      [reflexivity|].
    unfold Sentence.loopBody. cbn [Sentence.initLocals Sentence.newRange].
    rewrite Hclass, Hend. apply IH. }
  rewrite Hloop. unfold Sentence.afterLoop. simpl. rewrite Hrefl.
  destruct this; reflexivity.
Qed.

End MoreReconciliation.

(** * The further theorems at work on a sentence *)

Section MoreInstances.
#[local] Existing Instance TextUtilModel.ops.
#[local] Existing Instance ParserModel.ops.

Import Fixture MoreFixture.

Lemma applyTextChanges_keeps_other_ranges_witness :
  (1 < length (ranges shiftedStore))%nat
  /\ 1%nat <> Sentence.documentRange sentence
  /\ deref (Sentence.applyTextChanges sentence shiftedStore
              [replaceInside] (deltasOf [replaceInside]) "12345barx.").2 0%nat
     = mkRange (mkPosition 0 5) (mkPosition 0 10)
  /\ deref (Sentence.applyTextChanges sentence shiftedStore
              [replaceInside] (deltasOf [replaceInside]) "12345barx.").2 1%nat
     = deref shiftedStore 1%nat.
Proof.
  assert (Hin : (1 < length (ranges shiftedStore))%nat) by (vm_compute; lia).
  assert (Hne : 1%nat <> Sentence.documentRange sentence) by discriminate.
  split; [exact Hin|]. split; [exact Hne|]. split; [reflexivity|].
  apply (applyTextChanges_keeps_other_ranges sentence shiftedStore
           [replaceInside] (deltasOf [replaceInside]) "12345barx." 1%nat Hin Hne).
Defined.

Lemma applyTextChanges_before_first_keeps_store_witness :
  parser.sentenceRangeContainment
    (deref store (Sentence.documentRange sentence)) (vscode.range insertBefore)
  = parser.Before
  /\ (0 < length (ranges store))%nat
  /\ (Sentence.applyTextChanges sentence store (insertBefore :: [replaceShifted])
        (deltasOf [insertBefore; replaceShifted])
        "abcd12345barx.").1.1 = Normal false
  /\ deref (Sentence.applyTextChanges sentence store (insertBefore :: [replaceShifted])
              (deltasOf [insertBefore; replaceShifted])
              "abcd12345barx.").2 0%nat
     = deref store 0%nat.
Proof.
  assert (Hin : (0 < length (ranges store))%nat) by (vm_compute; lia).
  split; [reflexivity|]. split; [exact Hin|]. split; [reflexivity|].
  apply (@applyTextChanges_before_first_keeps_store TextUtilModel.ops
           ParserModel.ops sentence store insertBefore
           [replaceShifted] (TextUtilModel.rangeDeltaOf insertBefore)
           (deltasOf [replaceShifted]) "abcd12345barx." 0%nat eq_refl Hin).
Defined.

Lemma applyTextChanges_true_is_passive_witness :
  (Sentence.applyTextChanges padded paddedStore
     [insertBefore; replaceBlanks] (deltasOf [insertBefore; replaceBlanks]) "").1.1
  = Normal true
  /\ parser.isPassiveDifference "foo.  " ("foo." ++ String "010" " ") = true
  /\ Sentence.documentOffset
       (Sentence.applyTextChanges padded paddedStore
          [insertBefore; replaceBlanks] (deltasOf [insertBefore; replaceBlanks]) "").1.2
     = 5 + totalGrowth [insertBefore].
Proof.
  split; [reflexivity|].
  exact (applyTextChanges_true_is_passive padded paddedStore
           [insertBefore; replaceBlanks] (deltasOf [insertBefore; replaceBlanks]) ""
           eq_refl).
Defined.

Lemma applyTextChanges_true_range_object_witness :
  (Sentence.applyTextChanges padded paddedStore
     [insertBefore; replaceBlanks] (deltasOf [insertBefore; replaceBlanks]) "").1.1
  = Normal true
  /\ (length (ranges paddedStore)
      <= Sentence.documentRange
           (Sentence.applyTextChanges padded paddedStore
              [insertBefore; replaceBlanks]
              (deltasOf [insertBefore; replaceBlanks]) "").1.2)%nat.
Proof.
  split; [reflexivity|].
  apply (applyTextChanges_true_range_object padded paddedStore
           [insertBefore; replaceBlanks] (deltasOf [insertBefore; replaceBlanks]) "");
    [reflexivity|discriminate].
Defined.

Lemma applyTextChanges_drops_edit_without_effect_witness :
  Sentence.loop (deltasOf [insertBefore] ++ deltasOf [replaceShifted]) 0
    [insertBefore] (Sentence.initLocals sentence) sentence store
  = Sentence.Continue shiftedLocals shifted shiftedStore
  /\ parser.sentenceRangeContainment
       (deref shiftedStore (Sentence.newRange shiftedLocals))
       (vscode.range insertAfter) = parser.After
  /\ Sentence.applyTextChanges sentence store
       ([insertBefore] ++ insertAfter :: [replaceShifted])
       (deltasOf [insertBefore] ++ deltasOf [insertAfter; replaceShifted]) ""
     = Sentence.applyTextChanges sentence store
         ([insertBefore] ++ [replaceShifted])
         (deltasOf [insertBefore] ++ deltasOf [replaceShifted]) "".
Proof.
  split; [reflexivity|]. split; [reflexivity|].
  apply (@applyTextChanges_drops_edit_without_effect TextUtilModel.ops
           ParserModel.ops sentence store
           [insertBefore] insertAfter [replaceShifted]
           (deltasOf [insertBefore]) (deltasOf [replaceShifted])
           (TextUtilModel.rangeDeltaOf insertAfter) ""
           shiftedLocals shifted shiftedStore);
    [reflexivity|reflexivity|left; split; reflexivity].
Defined.

Lemma applyTextChanges_reads_document_when_touched_witness :
  Sentence.applyTextChanges sentence store
    [insertAfter] (deltasOf [insertAfter]) "12345foo.           x"
  = Sentence.applyTextChanges sentence store
      [insertAfter] (deltasOf [insertAfter]) "".
Proof.
  apply (applyTextChanges_reads_document_when_touched sentence store
           [insertAfter] (deltasOf [insertAfter])).
  intros pre change post l1 this1 h1 Hsplit Hpre _.
  destruct pre as [|c pre].
  - inversion Hsplit; subst. inversion Hpre; subst. reflexivity.
  - inversion Hsplit as [[Hc Hrest]]. destruct pre; discriminate.
Defined.

Lemma applyTextChanges_contains_end_offset_witness :
  (Sentence.applyTextChanges padded paddedStore
     [shrinkBlanks] (deltasOf [shrinkBlanks]) "12345foo. ").1.1 = Normal true
  /\ Sentence.text
       (Sentence.applyTextChanges padded paddedStore
          [shrinkBlanks] (deltasOf [shrinkBlanks]) "12345foo. ").1.2 = "foo. "%string
  /\ Sentence.getDocumentEndOffset padded = 11
  /\ Sentence.getDocumentEndOffset
       (Sentence.applyTextChanges padded paddedStore
          [shrinkBlanks] (deltasOf [shrinkBlanks]) "12345foo. ").1.2 = 10.
Proof.
  split; [reflexivity|].
  assert (Hb : 0 <= 4 <= strlen (Sentence.text padded))
    by (vm_compute; split; discriminate).
  assert (Hrl : 0 <= vscode.rangeLength shrinkBlanks) by (vm_compute; discriminate).
  pose proof (@applyTextChanges_contains_end_offset TextUtilModel.ops
                ParserModel.ops padded paddedStore shrinkBlanks
                (TextUtilModel.rangeDeltaOf shrinkBlanks) "12345foo. "
                eq_refl Hb Hrl eq_refl) as [Htext Hend].
  split; [exact Htext|]. split; [reflexivity|exact Hend].
Defined.

Lemma applyTextChanges_after_only_witness :
  parser.isPassiveDifference (Sentence.text sentence) (Sentence.text sentence) = true
  /\ Sentence.applyTextChanges sentence store [insertAfter; insertAfter] [] ""
     = (Normal true, sentence, store).
Proof.
  split; [reflexivity|].
  apply (applyTextChanges_after_only sentence store [insertAfter; insertAfter] [] "");
    [reflexivity|].
  repeat constructor.
Defined.

End MoreInstances.

(** * The empty batch, with the specification's [isPassiveDifference] *)

Section EmptyBatch.
Context {TU : textUtil.Ops}.
Variable parseSentenceLength : string -> Z.

(** The specification's oracle accepts every text against itself. *)
Lemma isPassiveDifference_refl (text : string) :
  ParserModel.isPassiveDifference text text = true.
Proof. unfold ParserModel.isPassiveDifference. apply String.eqb_refl. Qed.

(** C8: for an empty batch and every document text, [applyTextChanges]
    returns [true] and leaves the sentence's text, [documentRange] and
    [documentOffset], and the store, as they were.  [isPassiveDifference]
    is the specification's; text-util and [parseSentenceLength] are any. *)
Theorem applyTextChanges_nil_returns_true (this : Sentence.t) (h : Heap) (doc : string) :
  Sentence.applyTextChanges
    (P := ParserModel.opsWith parseSentenceLength ParserModel.isPassiveDifference)
    this h [] [] doc
  = (Normal true, this, h).
Proof.
  rewrite applyTextChanges_nil_oracle. cbn [parser.isPassiveDifference ParserModel.opsWith].
  rewrite isPassiveDifference_refl. reflexivity.
Qed.

End EmptyBatch.
